(** * Gutenberg word-frequency tool: a shallow embedding of
      [pythonfinalfrancia.py] and the properties of its analysis and
      storage functions.

    Python strings are modelled by [string]; a character is a code point
    of the range 0..255 (ASCII and Latin-1), on which the tables below are
    those of Python's [str] methods and of the [re] module.  Integers are
    [Z].  The table [word_frequencies] is the list of its rows in row
    order; the effects of the program (the database file, the standard
    output, the widgets of the window) are fields of a [world] that every
    function passes on. *)

From Stdlib Require Import Bool Arith ZArith NArith Lia List.
From Stdlib Require Import Ascii String DecimalString.
From Stdlib Require Import Permutation Sorted.
Import ListNotations.

Open Scope string_scope.
Open Scope Z_scope.

(** ** Characters *)

Module Char.

Definition code (c : ascii) : N := N_of_ascii c.

Definition in_range (lo hi : N) (c : ascii) : bool :=
  ((lo <=? code c) && (code c <=? hi))%N.

Definition is_code (n : N) (c : ascii) : bool := (code c =? n)%N.

(** The class [[a-z]] of the pattern. *)
Definition is_az (c : ascii) : bool := in_range 97 122 c.

(** [str.isspace], the characters that [str.strip()] removes. *)
Definition isspace (c : ascii) : bool :=
  in_range 9 13 c || in_range 28 32 c || is_code 133 c || is_code 160 c.

(** [str.isalnum]: letters, digits and the other numeric characters. *)
Definition isalnum (c : ascii) : bool :=
  in_range 48 57 c || in_range 65 90 c || in_range 97 122 c
  || is_code 170 c || is_code 178 c || is_code 179 c || is_code 181 c
  || is_code 185 c || is_code 186 c || in_range 188 190 c
  || in_range 192 214 c || in_range 216 246 c || in_range 248 255 c.

(** The class [\w] of [re] on [str] patterns. *)
Definition is_word (c : ascii) : bool := isalnum c || is_code 95 c.

(** [str.lower] on one character. *)
Definition lower (c : ascii) : ascii :=
  if in_range 65 90 c || in_range 192 214 c || in_range 216 222 c
  then ascii_of_N (code c + 32)
  else c.

End Char.

(** ** The string methods the program calls *)

Module Str.

(** [s.lower()] *)
Fixpoint lower (s : string) : string :=
  match s with
  | EmptyString => EmptyString
  | String c s' => String (Char.lower c) (lower s')
  end.

Fixpoint lstrip (s : string) : string :=
  match s with
  | EmptyString => EmptyString
  | String c s' => if Char.isspace c then lstrip s' else s
  end.

Fixpoint rstrip (s : string) : string :=
  match s with
  | EmptyString => EmptyString
  | String c s' =>
      match rstrip s' with
      | EmptyString => if Char.isspace c then EmptyString else String c EmptyString
      | r => String c r
      end
  end.

(** [s.strip()] *)
Definition strip (s : string) : string := rstrip (lstrip s).

(** [s.startswith(p)] *)
Fixpoint startswith (s p : string) {struct p} : bool :=
  match p, s with
  | EmptyString, _ => true
  | String a p', String b s' => Ascii.eqb a b && startswith s' p'
  | String _ _, EmptyString => false
  end.

(** [s[n:]] for [n >= 0] *)
Fixpoint slice_from (n : nat) (s : string) : string :=
  match n, s with
  | O, _ => s
  | S n', String _ s' => slice_from n' s'
  | S _, EmptyString => EmptyString
  end.

(** [s.split(sep)] for a separator of one character: never empty. *)
Fixpoint split (sep : ascii) (s : string) : list string :=
  match s with
  | EmptyString => [EmptyString]
  | String c s' =>
      if Ascii.eqb c sep then EmptyString :: split sep s'
      else match split sep s' with
           | h :: t => String c h :: t
           | [] => [String c EmptyString]
           end
  end.

(** [str(i)] for an integer *)
Definition of_Z (i : Z) : string := NilEmpty.string_of_int (Z.to_int i).

End Str.

(** ** [re.findall(r'\b[a-z]+\b', text)] *)

Module Re.

Definition is_word_at (c : option ascii) : bool :=
  match c with
  | Some a => Char.is_word a
  | None => false
  end.

(** [\b] between the character before the position and the one at it;
    outside the text counts as a non-word character. *)
Definition word_boundary (before at_pos : option ascii) : bool :=
  xorb (is_word_at before) (is_word_at at_pos).

(** The rest of [[a-z]+\b] once a letter [last] is consumed: the
    greedy [+] takes one more letter when it can and the match goes on;
    when that fails it gives the letter back and [\b] is tried where
    it stands.  The result is the text consumed after [last]. *)
Fixpoint more_letters_then_boundary (last : ascii) (s : string) : option string :=
  match s with
  | EmptyString =>
      if word_boundary (Some last) None then Some EmptyString else None
  | String c s' =>
      let stop :=
        if word_boundary (Some last) (Some c) then Some EmptyString else None in
      if Char.is_az c then
        match more_letters_then_boundary c s' with
        | Some w => Some (String c w)
        | None => stop
        end
      else stop
  end.

(** The whole pattern tried at one position of the text. *)
Definition match_here (before : option ascii) (s : string) : option string :=
  match s with
  | EmptyString => None
  | String c s' =>
      if word_boundary before (Some c) && Char.is_az c then
        match more_letters_then_boundary c s' with
        | Some w => Some (String c w)
        | None => None
        end
      else None
  end.

(** The scan of [findall]: the pattern is tried at each position from
    left to right; after a match the scan resumes at its end, so the
    [skip] positions the match still covers are passed over. *)
Fixpoint scan (before : option ascii) (s : string) (skip : nat) : list string :=
  match s with
  | EmptyString => []
  | String c s' =>
      match skip with
      | S k => scan (Some c) s' k
      | O =>
          match match_here before s with
          | Some w => w :: scan (Some c) s' (String.length w - 1)
          | None => scan (Some c) s' 0
          end
      end
  end.

Definition findall (text : string) : list string := scan None text 0.

End Re.

(** ** [collections.Counter] *)

Module Counter.

(** A counter is a dictionary: its items come in the order the keys
    were first inserted. *)
Definition t : Type := list (string * Z).

(** [c[w] += 1] *)
Fixpoint incr (w : string) (c : t) : t :=
  match c with
  | [] => [(w, 1)]
  | (k, v) :: c' =>
      if String.eqb k w then (k, v + 1) :: c' else (k, v) :: incr w c'
  end.

(** [Counter(words)] *)
Definition of_list (words : list string) : t :=
  fold_left (fun c w => incr w c) words [].

(** Insertion of an item in front of the first item whose count is not
    larger: [sorted (..., key=itemgetter(1), reverse=True)] is stable. *)
Fixpoint insert_desc (x : string * Z) (l : t) : t :=
  match l with
  | [] => [x]
  | y :: l' => if snd y <=? snd x then x :: l else y :: insert_desc x l'
  end.

Fixpoint sorted_desc (l : t) : t :=
  match l with
  | [] => []
  | x :: l' => insert_desc x (sorted_desc l')
  end.

(** [c.most_common(n)], that is [heapq.nlargest(n, c.items(), key)]:
    the first [n] items of the stable descending sort, none for
    [n <= 0]. *)
Definition most_common (n : Z) (c : t) : t :=
  firstn (Z.to_nat n) (sorted_desc c).

End Counter.

(** ** The analyzer *)

Definition get_top_words (text : string) (num_words : Z) : list (string * Z) :=
  let text := Str.lower text in
  let words := Re.findall text in
  let word_counts := Counter.of_list words in
  Counter.most_common num_words word_counts.

Definition newline : ascii := ascii_of_N 10.

Definition is_title_line (line : string) : bool :=
  Str.startswith (Str.lower (Str.strip line)) "title:".

(** The loop of [extract_title] over the lines, left at the first line
    that matches. *)
Fixpoint extract_title_loop (lines : list string) : string :=
  match lines with
  | [] => "Unknown Title"
  | line :: rest =>
      if is_title_line line
      then Str.strip (Str.slice_from 6 (Str.strip line))
      else extract_title_loop rest
  end.

Definition extract_title (book_text : string) : string :=
  extract_title_loop (Str.split newline book_text).

(** ** The store: the table [word_frequencies] of [franciabooks.db] *)

Record row : Type := Row { title : string; word : string; frequency : Z }.

Definition table : Type := list row.

Definition key (r : row) : string * string := (title r, word r).

Definition has_key (t w : string) (r : row) : bool :=
  String.eqb (title r) t && String.eqb (word r) w.

(** [INSERT OR REPLACE INTO word_frequencies (title, word, frequency)
    VALUES (t, w, f)] under [PRIMARY KEY (title, word)]: the rows in
    conflict with the new one on the key are deleted, then the new row
    is inserted. *)
Definition insert_or_replace (t w : string) (f : Z) (tb : table) : table :=
  (filter (fun r => negb (has_key t w r)) tb ++ [Row t w f])%list.

(** The loop of [save_to_database]: one statement per pair, in order. *)
Definition execute_inserts (t : string) (word_freqs : list (string * Z))
    (tb : table) : table :=
  fold_left (fun tb wf => insert_or_replace t (fst wf) (snd wf) tb) word_freqs tb.

(** [SELECT word, frequency FROM word_frequencies WHERE title = t] *)
Definition select_title (t : string) (tb : table) : list (string * Z) :=
  map (fun r => (word r, frequency r))
      (filter (fun r => String.eqb (title r) t) tb).

Definition count_desc (a b : string * Z) : Prop := snd b <= snd a.

(** [ORDER BY frequency DESC]: SQL fixes the result up to the order of
    the rows of equal frequency, which is the engine's.  An engine is any
    function that sorts. *)
Class SqlEngine : Type := {
  order_by_frequency_desc : list (string * Z) -> list (string * Z);
  order_by_permutation :
    forall l, Permutation (order_by_frequency_desc l) l;
  order_by_sorted :
    forall l, StronglySorted count_desc (order_by_frequency_desc l)
}.

(** [... ORDER BY frequency DESC LIMIT 10] followed by [fetchall()] *)
Definition select_top10 `{SqlEngine} (t : string) (tb : table) : list (string * Z) :=
  firstn 10 (order_by_frequency_desc (select_title t tb)).

(** ** The world of the program *)

(** What happens to one use of the database file: it works, no error
    being raised from the connection to the commit, or [sqlite3] raises
    an error whose message is [e] (the file cannot be read or written,
    a frequency does not fit the 64-bit integers of SQLite, ...). *)
Inductive disk : Type :=
  | Works
  | Raises (e : string).

(** What [urlopen(url).read().decode('utf-8')] gives. *)
Inductive reply : Type :=
  | Body (text : string)
  | NetError (e : string).

Record world : Type := World {
  db : option table;        (* the table, once created *)
  stdout : list string;     (* the lines printed *)
  title_entry : string;
  url_entry : string;
  output_area : string;
  warnings : list (string * string)   (* the message boxes shown *)
}.

Definition set_db (d : option table) (w : world) : world :=
  World d (stdout w) (title_entry w) (url_entry w) (output_area w) (warnings w).

Definition print (line : string) (w : world) : world :=
  World (db w) (stdout w ++ [line])%list (title_entry w) (url_entry w)
        (output_area w) (warnings w).

Definition showwarning (ttl msg : string) (w : world) : world :=
  World (db w) (stdout w) (title_entry w) (url_entry w) (output_area w)
        (warnings w ++ [(ttl, msg)])%list.

(** [output_area.delete("1.0", tk.END)] *)
Definition output_clear (w : world) : world :=
  World (db w) (stdout w) (title_entry w) (url_entry w) EmptyString (warnings w).

(** [output_area.insert(tk.END, s)] *)
Definition output_insert (s : string) (w : world) : world :=
  World (db w) (stdout w) (title_entry w) (url_entry w)
        (output_area w ++ s) (warnings w).

Definition nl : string := String newline EmptyString.

Definition no_such_table : string := "no such table: word_frequencies".

(** [CREATE TABLE IF NOT EXISTS word_frequencies (...)] *)
Definition initialize_database (w : world) : world :=
  match db w with
  | None => set_db (Some []) w
  | Some _ => w
  end.

Definition download_book (net : string -> reply) (url : string) (w : world)
    : option string * world :=
  match net url with
  | Body raw_text => (Some raw_text, w)
  | NetError e => (None, print ("we had an error downloaded book: " ++ e) w)
  end.

(** The rows executed before an error are never committed: the store
    changes only when the whole loop and the commit went through. *)
Definition save_to_database (d : disk) (t : string)
    (word_freqs : list (string * Z)) (w : world) : world :=
  let saved := print ("Saved '" ++ t ++ "' to the database.") in
  let failed e := print ("Error saving to database: " ++ e) in
  match d with
  | Raises e => failed e w
  | Works =>
      match db w, word_freqs with
      | Some tb, _ => saved (set_db (Some (execute_inserts t word_freqs tb)) w)
      | None, [] => saved w
      | None, _ :: _ => failed no_such_table w
      end
  end.

Definition search_database `{SqlEngine} (d : disk) (t : string) (w : world)
    : option (list (string * Z)) * world :=
  let failed e := print ("Error searching database: " ++ e) in
  match d with
  | Raises e => (None, failed e w)
  | Works =>
      match db w with
      | None => (None, failed no_such_table w)
      | Some tb =>
          match select_top10 t tb with
          | [] => (None, w)
          | results => (Some results, w)
          end
      end
  end.

(** The lines [word: freq] that both handlers write. *)
Fixpoint output_pairs (pairs : list (string * Z)) (w : world) : world :=
  match pairs with
  | [] => w
  | (wd, freq) :: rest =>
      output_pairs rest (output_insert (wd ++ ": " ++ Str.of_Z freq ++ nl) w)
  end.

Definition on_search_title `{SqlEngine} (d : disk) (w : world) : world :=
  let t := Str.strip (title_entry w) in
  match t with
  | EmptyString => showwarning "Missing Title" "Enter a book title." w
  | _ =>
      let (results, w) := search_database d t w in
      let w := output_clear w in
      match results with
      | Some (first :: others) =>
          output_pairs (first :: others)
            (output_insert ("Top words for '" ++ t ++ "':" ++ nl) w)
      | _ => output_insert ("Book was not found." ++ nl) w
      end
  end.

Definition on_fetch_from_url (net : string -> reply) (d : disk) (w : world) : world :=
  let url := Str.strip (url_entry w) in
  match url with
  | EmptyString => showwarning "Missing info" "Please enter both a URL." w
  | _ =>
      let (book_text, w) := download_book net url w in
      match book_text with
      | Some (String _ _ as book_text) =>
          let t := extract_title book_text in
          let top_words := get_top_words book_text 10 in
          let w := save_to_database d t top_words w in
          let w := output_clear w in
          let w := output_insert
                     ("Saved '" ++ t ++ "' to database with top words:" ++ nl) w in
          output_pairs top_words w
      | _ =>
          let w := output_clear w in
          output_insert ("Book could not be downloaded." ++ nl) w
      end
  end.

(** The program starts on a database file that has no table yet. *)
Definition blank : world :=
  World None [] EmptyString EmptyString EmptyString [].

Definition fresh : world := initialize_database blank.

(** A history of calls of [save_to_database]. *)
Record save_call : Type := SaveCall {
  call_disk : disk;
  call_title : string;
  call_pairs : list (string * Z)
}.

Definition run_saves (calls : list save_call) (w : world) : world :=
  fold_left (fun w c => save_to_database (call_disk c) (call_title c) (call_pairs c) w)
            calls w.

(** The table of a world; a file without the table holds no row. *)
Definition rows (w : world) : table :=
  match db w with
  | Some tb => tb
  | None => []
  end.

(** The user types in the two entries of the window. *)
Definition type_title (s : string) (w : world) : world :=
  World (db w) (stdout w) s (url_entry w) (output_area w) (warnings w).

Definition type_url (s : string) (w : world) : world :=
  World (db w) (stdout w) (title_entry w) s (output_area w) (warnings w).

(** A store in which an earlier save left a row under the title [X]. *)
Definition earlier_save : world :=
  save_to_database Works "X" [("zebra", 5)] fresh.

(** A network on which every fetch fails. *)
Definition unreachable (url : string) : reply := NetError "unknown url type".

(** A network that serves one small book at every address. *)
Definition one_book (url : string) : reply :=
  Body ("Title: Emma" ++ nl ++ "the cat, the hat").

(** A network that answers with an empty body. *)
Definition empty_page (url : string) : reply := Body EmptyString.

(** The rows that [save_to_database t word_freqs] writes: those of title
    [t] whose word is one of the list. *)
Definition written (t : string) (word_freqs : list (string * Z)) (r : row) : bool :=
  String.eqb (title r) t && existsb (String.eqb (word r)) (map fst word_freqs).

Definition untouched (t : string) (word_freqs : list (string * Z)) (r : row) : bool :=
  negb (written t word_freqs r).

(** The row that holds a pair under a title. *)
Definition row_of (t : string) (p : string * Z) : row := Row t (fst p) (snd p).

(** ** One engine: SQLite as observed *)

Module Sqlite.

(** The rows of a title are read through the index of the primary key,
    in the order of their words, and sorted by a stable sort. *)
Fixpoint insert_word (x : string * Z) (l : list (string * Z)) : list (string * Z) :=
  match l with
  | [] => [x]
  | y :: l' => if String.leb (fst x) (fst y) then x :: l else y :: insert_word x l'
  end.

Fixpoint index_order (l : list (string * Z)) : list (string * Z) :=
  match l with
  | [] => []
  | x :: l' => insert_word x (index_order l')
  end.

Definition order_by (l : list (string * Z)) : list (string * Z) :=
  Counter.sorted_desc (index_order l).

End Sqlite.

(** ** The words of a text, as the specification words them *)

Module Spec.

(** A run of lowercase ASCII letters with the characters that stand
    before and after it in the text ([None] at an end of the text). *)
Record run : Type := Run {
  before : option ascii;
  letters : string;
  after : option ascii
}.

Definition close (b : option ascii) (cur : string) (a : option ascii) : list run :=
  match cur with
  | EmptyString => []
  | _ => [Run b cur a]
  end.

(** The maximal runs of letters of [s], read from left to right: [cur]
    is the run being read and [b] the character before it. *)
Fixpoint runs_from (b : option ascii) (cur : string) (s : string) : list run :=
  match s with
  | EmptyString => close b cur None
  | String c s' =>
      if Char.is_az c then runs_from b (cur ++ String c EmptyString) s'
      else (close b cur (Some c) ++ runs_from (Some c) EmptyString s')%list
  end.

Definition runs (s : string) : list run := runs_from None EmptyString s.

(** "Maximal runs of lowercase ASCII letters": every run is a word. *)
Definition letter_runs (s : string) : list string := map letters (runs s).

(** A run stands alone when no word character (a digit, an underscore,
    an accented or other letter) touches it on either side. *)
Definition stands_alone (r : run) : bool :=
  negb (Re.is_word_at (before r)) && negb (Re.is_word_at (after r)).

Definition kept (rs : list run) : list string :=
  map letters (filter stands_alone rs).

(** The maximal runs of letters that stand alone. *)
Definition standalone_runs (s : string) : list string := kept (runs s).

(** A line carries the marker when, trimmed, it starts with
    [title:] written in any case. *)
Definition marked (line : string) : Prop :=
  exists marker rest,
    Str.strip line = marker ++ rest /\ Str.lower marker = "title:".

(** "The first line whose prefix matches the marker": the marker is
    looked for at the start of the line as it stands. *)
Definition has_prefix (line : string) : bool :=
  Str.startswith (Str.lower line) "title:".

Fixpoint title_by_prefix_loop (lines : list string) : string :=
  match lines with
  | [] => "Unknown Title"
  | line :: rest =>
      if has_prefix line then Str.strip (Str.slice_from 6 line)
      else title_by_prefix_loop rest
  end.

Definition title_by_prefix (book_text : string) : string :=
  title_by_prefix_loop (Str.split newline book_text).

End Spec.

(** Two lines with the marker, the first one indented. *)
Definition indented_title : string :=
  "  Title: A" ++ String newline EmptyString ++ "Title: B".

(** The text [café], with its accented last letter. *)
Definition cafe : string := "caf" ++ String (ascii_of_N 233) EmptyString.

(** ** Predicates of the proofs *)

Definition positive_counts (c : list (string * Z)) : Prop :=
  Forall (fun p => 1 <= snd p) c.

(** The three states of the scan.  [outside]: no run is being read.
    [matched]: the scan is inside a run it has matched, whose letters
    [r] are still to be passed over.  [unmatched]: the scan is inside a
    run that cannot match, for a word character stands before it or
    after it. *)
Definition outside (s : string) : Prop :=
  forall b, Re.scan b s 0 = Spec.kept (Spec.runs_from b EmptyString s).

Definition matched (s : string) : Prop :=
  forall b cur p r,
    Re.is_word_at b = false -> cur <> EmptyString -> Char.is_az p = true ->
    Re.more_letters_then_boundary p s = Some r ->
    (cur ++ r) :: Re.scan (Some p) s (String.length r)
    = Spec.kept (Spec.runs_from b cur s).

Definition unmatched (s : string) : Prop :=
  forall b cur p,
    cur <> EmptyString -> Char.is_az p = true ->
    Re.is_word_at b = true \/ Re.more_letters_then_boundary p s = None ->
    Re.scan (Some p) s 0 = Spec.kept (Spec.runs_from b cur s).

(** Every character of a string is of a class. *)
Fixpoint every (p : ascii -> bool) (s : string) : bool :=
  match s with
  | EmptyString => true
  | String c s' => p c && every p s'
  end.

(** A character occurs in a string. *)
Fixpoint occurs (c : ascii) (s : string) : bool :=
  match s with
  | EmptyString => false
  | String a s' => Ascii.eqb a c || occurs c s'
  end.

(** A run is a non-empty string of letters. *)
Definition letters_only (r : Spec.run) : Prop :=
  Spec.letters r <> EmptyString /\ every Char.is_az (Spec.letters r) = true.

(** A string does not start with white space. *)
Definition starts_clean (s : string) : Prop :=
  match s with
  | EmptyString => True
  | String c _ => Char.isspace c = false
  end.

(** The count that a counter holds for a word, 0 for a word it has not. *)
Fixpoint count_of (k : string) (c : Counter.t) : Z :=
  match c with
  | [] => 0
  | (k', v) :: c' => if String.eqb k' k then v else count_of k c'
  end.

(** How many times a word stands in a list of words. *)
Definition occurrences (k : string) (words : list string) : Z :=
  Z.of_nat (count_occ string_dec words k).

(** The text that [output_pairs] writes. *)
Fixpoint pairs_text (pairs : list (string * Z)) : string :=
  match pairs with
  | [] => EmptyString
  | (wd, freq) :: rest => (wd ++ ": " ++ Str.of_Z freq ++ nl) ++ pairs_text rest
  end.

(** * Properties *)

(** ** Sorting by descending count *)

Section Sorting.

Lemma insert_desc_permutation (x : string * Z) (l : Counter.t) :
  Permutation (Counter.insert_desc x l) (x :: l).
Proof.
  induction l as [|y l IH]; simpl.
  - apply Permutation_refl.
  - destruct (snd y <=? snd x).
    + apply Permutation_refl.
    + apply perm_trans with (y :: x :: l).
      * apply perm_skip, IH.
      * apply perm_swap.
Qed.

Lemma sorted_desc_permutation (l : Counter.t) :
  Permutation (Counter.sorted_desc l) l.
Proof.
  induction l as [|x l IH]; simpl.
  - apply perm_nil.
  - apply perm_trans with (x :: Counter.sorted_desc l).
    + apply insert_desc_permutation.
    + apply perm_skip, IH.
Qed.

Lemma insert_desc_sorted (x : string * Z) (l : Counter.t) :
  StronglySorted count_desc l ->
  StronglySorted count_desc (Counter.insert_desc x l).
Proof.
  induction 1 as [|y l Hl IH Hy]; simpl.
  - constructor; constructor.
  - destruct (snd y <=? snd x) eqn:E.
    + apply Z.leb_le in E.
      constructor.
      * constructor; assumption.
      * constructor; [exact E|].
        eapply Forall_impl; [|exact Hy].
        unfold count_desc; intros a Ha; lia.
    + apply Z.leb_gt in E.
      constructor; [exact IH|].
      eapply Permutation_Forall.
      * apply Permutation_sym, insert_desc_permutation.
      * constructor; [unfold count_desc; lia | exact Hy].
Qed.

Lemma sorted_desc_sorted (l : Counter.t) :
  StronglySorted count_desc (Counter.sorted_desc l).
Proof.
  induction l as [|x l IH]; simpl.
  - constructor.
  - apply insert_desc_sorted, IH.
Qed.

(** The sort is stable: a list already in descending order is left as
    it is. *)
Lemma sorted_desc_fixed (l : Counter.t) :
  StronglySorted count_desc l -> Counter.sorted_desc l = l.
Proof.
  induction 1 as [|x l Hl IH Hx]; simpl; [reflexivity|].
  rewrite IH.
  destruct l as [|y l']; [reflexivity|]; simpl.
  inversion Hx as [|? ? Hxy _]; subst.
  unfold count_desc in Hxy.
  apply Z.leb_le in Hxy; rewrite Hxy; reflexivity.
Qed.

Lemma firstn_strongly_sorted {A : Type} (R : A -> A -> Prop) (n : nat) (l : list A) :
  StronglySorted R l -> StronglySorted R (firstn n l).
Proof.
  intros H; revert n.
  induction H as [|x l Hl IH Hx]; intros [|n]; simpl; try constructor.
  - apply IH.
  - apply Forall_forall; intros y Hy.
    rewrite Forall_forall in Hx.
    apply Hx.
    rewrite <- (firstn_skipn n l).
    apply in_or_app; left; exact Hy.
Qed.

Lemma firstn_forall {A : Type} (P : A -> Prop) (n : nat) (l : list A) :
  Forall P l -> Forall P (firstn n l).
Proof.
  intros H; apply Forall_forall; intros y Hy.
  rewrite Forall_forall in H; apply H.
  rewrite <- (firstn_skipn n l).
  apply in_or_app; left; exact Hy.
Qed.

Lemma insert_word_permutation (x : string * Z) (l : list (string * Z)) :
  Permutation (Sqlite.insert_word x l) (x :: l).
Proof.
  induction l as [|y l IH]; simpl.
  - apply Permutation_refl.
  - destruct (String.leb (fst x) (fst y)).
    + apply Permutation_refl.
    + apply perm_trans with (y :: x :: l).
      * apply perm_skip, IH.
      * apply perm_swap.
Qed.

Lemma index_order_permutation (l : list (string * Z)) :
  Permutation (Sqlite.index_order l) l.
Proof.
  induction l as [|x l IH]; simpl.
  - apply perm_nil.
  - apply perm_trans with (x :: Sqlite.index_order l).
    + apply insert_word_permutation.
    + apply perm_skip, IH.
Qed.

Lemma sqlite_order_by_permutation (l : list (string * Z)) :
  Permutation (Sqlite.order_by l) l.
Proof.
  unfold Sqlite.order_by.
  apply perm_trans with (Sqlite.index_order l).
  - apply sorted_desc_permutation.
  - apply index_order_permutation.
Qed.

Lemma sqlite_order_by_sorted (l : list (string * Z)) :
  StronglySorted count_desc (Sqlite.order_by l).
Proof. apply sorted_desc_sorted. Qed.

End Sorting.

#[export] Instance sqlite : SqlEngine := {|
  order_by_frequency_desc := Sqlite.order_by;
  order_by_permutation := sqlite_order_by_permutation;
  order_by_sorted := sqlite_order_by_sorted
|}.

(** ** The counts of [get_top_words] *)

Lemma incr_positive (w : string) (c : Counter.t) :
  positive_counts c -> positive_counts (Counter.incr w c).
Proof.
  unfold positive_counts.
  induction 1 as [|[k v] c Hv Hc IH]; simpl.
  - constructor; [simpl; lia | constructor].
  - destruct (String.eqb k w).
    + constructor; [simpl in *; lia | exact Hc].
    + constructor; [exact Hv | exact IH].
Qed.

Lemma fold_incr_positive (words : list string) (c : Counter.t) :
  positive_counts c ->
  positive_counts (fold_left (fun c w => Counter.incr w c) words c).
Proof.
  revert c; induction words as [|w words IH]; intros c Hc; simpl.
  - exact Hc.
  - apply IH, incr_positive, Hc.
Qed.

Lemma of_list_positive (words : list string) :
  positive_counts (Counter.of_list words).
Proof. apply fold_incr_positive; constructor. Qed.

Lemma most_common_positive (n : Z) (c : Counter.t) :
  positive_counts c -> positive_counts (Counter.most_common n c).
Proof.
  intros Hc; unfold Counter.most_common.
  apply firstn_forall.
  eapply Permutation_Forall; [|exact Hc].
  apply Permutation_sym, sorted_desc_permutation.
Qed.

Lemma most_common_sorted (n : Z) (c : Counter.t) :
  StronglySorted count_desc (Counter.most_common n c).
Proof. apply firstn_strongly_sorted, sorted_desc_sorted. Qed.

Lemma most_common_length (n : Z) (c : Counter.t) :
  List.length (Counter.most_common n c) = Nat.min (Z.to_nat n) (List.length c).
Proof.
  unfold Counter.most_common.
  rewrite length_firstn.
  f_equal.
  apply Permutation_length, sorted_desc_permutation.
Qed.

(** For a negative [n] nothing is returned. *)
Lemma get_top_words_nonpositive (text : string) (n : Z) :
  n <= 0 -> get_top_words text n = [].
Proof.
  intros Hn; unfold get_top_words, Counter.most_common.
  replace (Z.to_nat n) with O by lia.
  reflexivity.
Qed.

(** C2: for every text and every number [n] of words asked for,
    [get_top_words] returns at most [n] entries, every count is at least
    1 and the counts never increase from one entry to the next.  The
    number asked for is a count, [0 <= n]. *)
Theorem get_top_words_at_most_n_positive_descending (text : string) (n : Z) :
  0 <= n ->
  Z.of_nat (List.length (get_top_words text n)) <= n
  /\ Forall (fun entry => 1 <= snd entry) (get_top_words text n)
  /\ StronglySorted (fun a b => snd b <= snd a) (get_top_words text n).
Proof.
  intros Hn; unfold get_top_words; repeat split.
  - rewrite most_common_length; lia.
  - apply most_common_positive, of_list_positive.
  - apply most_common_sorted.
Qed.

Lemma get_top_words_at_most_n_positive_descending_witness :
  0 <= 2
  /\ Z.of_nat (List.length (get_top_words "the the the cat" 2)) <= 2
  /\ Forall (fun entry => 1 <= snd entry) (get_top_words "the the the cat" 2)
  /\ StronglySorted (fun a b => snd b <= snd a) (get_top_words "the the the cat" 2).
Proof.
  split; [lia|].
  apply (get_top_words_at_most_n_positive_descending "the the the cat" 2); lia.
Defined.

(** ** The words that [re.findall] extracts *)

Section Words.

Lemma append_cons_assoc (a : string) (c : ascii) (b : string) :
  (a ++ String c EmptyString) ++ b = a ++ String c b.
Proof. induction a as [|x a IH]; simpl; [reflexivity | rewrite IH; reflexivity]. Qed.

Lemma append_empty_r (a : string) : a ++ EmptyString = a.
Proof. induction a as [|x a IH]; simpl; [reflexivity | rewrite IH; reflexivity]. Qed.

Lemma snoc_not_empty (a : string) (c : ascii) :
  a ++ String c EmptyString <> EmptyString.
Proof. destruct a; discriminate. Qed.

Lemma close_not_empty (b a : option ascii) (cur : string) :
  cur <> EmptyString -> Spec.close b cur a = [Spec.Run b cur a].
Proof. destruct cur; [contradiction | reflexivity]. Qed.

(** A letter of [[a-z]] is a word character. *)
Lemma is_az_is_word (c : ascii) : Char.is_az c = true -> Char.is_word c = true.
Proof.
  destruct c as [b0 b1 b2 b3 b4 b5 b6 b7].
  destruct b0, b1, b2, b3, b4, b5, b6, b7; vm_compute; intros H;
    first [reflexivity | discriminate H].
Qed.

(** No boundary stands between two letters. *)
Lemma no_boundary_between_letters (p c : ascii) :
  Char.is_az p = true -> Char.is_az c = true ->
  Re.word_boundary (Some p) (Some c) = false.
Proof.
  intros Hp Hc; unfold Re.word_boundary; simpl.
  rewrite (is_az_is_word _ Hp), (is_az_is_word _ Hc); reflexivity.
Qed.

Lemma boundary_after_letter (p : ascii) (a : option ascii) :
  Char.is_az p = true ->
  Re.word_boundary (Some p) a = negb (Re.is_word_at a).
Proof.
  intros Hp; unfold Re.word_boundary; simpl.
  rewrite (is_az_is_word _ Hp); reflexivity.
Qed.

Lemma scan_states (s : string) : outside s /\ matched s /\ unmatched s.
Proof.
  induction s as [|c s (IHo & IHm & IHu)].
  - (* the end of the text *)
    split; [|split].
    + intros b; reflexivity.
    + intros b cur p r Hb Hcur Hp Hr; simpl in *.
      rewrite boundary_after_letter in Hr by exact Hp; simpl in Hr.
      injection Hr as <-.
      rewrite append_empty_r, close_not_empty by exact Hcur.
      unfold Spec.kept, Spec.stands_alone; simpl; rewrite Hb; reflexivity.
    + intros b cur p Hcur Hp [Hb | Hr]; simpl in *.
      * rewrite close_not_empty by exact Hcur.
        unfold Spec.kept, Spec.stands_alone; simpl; rewrite Hb; reflexivity.
      * rewrite boundary_after_letter in Hr by exact Hp; discriminate Hr.
  - split; [|split].
    + (* outside a run *)
      intros b; simpl.
      destruct (Char.is_az c) eqn:Hc.
      * unfold Re.word_boundary; simpl.
        rewrite (is_az_is_word _ Hc).
        destruct (Re.is_word_at b) eqn:Hb; simpl.
        -- apply IHu; [discriminate | exact Hc | left; exact Hb].
        -- destruct (Re.more_letters_then_boundary c s) as [w|] eqn:Hw.
           ++ simpl; rewrite Nat.sub_0_r.
              apply (IHm b (String c EmptyString) c w Hb); [discriminate | exact Hc | exact Hw].
           ++ apply IHu; [discriminate | exact Hc | right; exact Hw].
      * rewrite andb_false_r; simpl.
        apply IHo.
    + (* inside a matched run *)
      intros b cur p r Hb Hcur Hp Hr; simpl in Hr.
      destruct (Char.is_az c) eqn:Hc.
      * rewrite no_boundary_between_letters in Hr by assumption.
        destruct (Re.more_letters_then_boundary c s) as [w|] eqn:Hw; [|discriminate Hr].
        injection Hr as <-; simpl; rewrite Hc.
        rewrite <- append_cons_assoc.
        apply IHm; [exact Hb | apply snoc_not_empty | exact Hc | exact Hw].
      * rewrite boundary_after_letter in Hr by exact Hp; simpl in Hr.
        destruct (Char.is_word c) eqn:Hwc; simpl in Hr; [discriminate Hr|].
        injection Hr as <-; simpl; rewrite Hc.
        rewrite andb_false_r, append_empty_r, close_not_empty by exact Hcur.
        unfold Spec.kept, Spec.stands_alone; simpl; rewrite Hb, Hwc; simpl.
        f_equal; apply IHo.
    + (* inside a run that cannot match *)
      intros b cur p Hcur Hp Hfail; simpl.
      destruct (Char.is_az c) eqn:Hc.
      * rewrite no_boundary_between_letters by assumption; simpl.
        apply IHu; [apply snoc_not_empty | exact Hc |].
        destruct Hfail as [Hb | Hr]; [left; exact Hb | right].
        simpl in Hr; rewrite Hc in Hr.
        destruct (Re.more_letters_then_boundary c s); [discriminate Hr | reflexivity].
      * rewrite andb_false_r, close_not_empty by exact Hcur.
        assert (Hdrop : Spec.stands_alone (Spec.Run b cur (Some c)) = false).
        { unfold Spec.stands_alone; simpl.
          destruct Hfail as [Hb | Hr]; [rewrite Hb; reflexivity|].
          simpl in Hr; rewrite Hc in Hr.
          rewrite boundary_after_letter in Hr by exact Hp; simpl in Hr.
          destruct (Char.is_word c); [apply andb_false_r | discriminate Hr]. }
        unfold Spec.kept; simpl; rewrite Hdrop.
        apply IHo.
Qed.

Lemma findall_standalone_runs (s : string) :
  Re.findall s = Spec.standalone_runs s.
Proof. apply (proj1 (scan_states s)). Qed.

End Words.

(** C3, as amended: the words that [get_top_words] counts are exactly the
    maximal runs of lowercase ASCII letters of the lower-cased text that
    stand alone, with no word character (digit, underscore, accented or
    other letter) on either side; and
    [get_top_words "the the the cat" 2 = [("the", 3); ("cat", 1)]]. *)
Theorem get_top_words_counts_standalone_runs (text : string) (n : Z) :
  Re.findall (Str.lower text) = Spec.standalone_runs (Str.lower text)
  /\ get_top_words text n
     = Counter.most_common n
         (Counter.of_list (Spec.standalone_runs (Str.lower text)))
  /\ get_top_words "the the the cat" 2 = [("the", 3); ("cat", 1)].
Proof.
  split; [|split].
  - apply findall_standalone_runs.
  - unfold get_top_words; rewrite findall_standalone_runs; reflexivity.
  - reflexivity.
Qed.

(** C3, as stated, fails: in [abc1] the maximal run of letters [abc]
    touches a digit, in [café] the run [caf] touches an accented letter,
    and neither is extracted. *)
Lemma run_beside_digit_or_accent_not_extracted :
  Spec.letter_runs (Str.lower "abc1") = ["abc"]
  /\ Re.findall (Str.lower "abc1") = []
  /\ get_top_words "abc1" 10 = []
  /\ Spec.letter_runs (Str.lower cafe) = ["caf"]
  /\ Re.findall (Str.lower cafe) = []
  /\ get_top_words cafe 10 = [].
Proof. repeat split; vm_compute; reflexivity. Qed.

(** ** The title *)

Section Title.

Lemma lower_length (s : string) : String.length (Str.lower s) = String.length s.
Proof. induction s as [|c s IH]; simpl; [reflexivity | rewrite IH; reflexivity]. Qed.

Lemma lower_append (a b : string) :
  Str.lower (a ++ b) = Str.lower a ++ Str.lower b.
Proof. induction a as [|c a IH]; simpl; [reflexivity | rewrite IH; reflexivity]. Qed.

Lemma startswith_append (p x : string) : Str.startswith (p ++ x) p = true.
Proof.
  induction p as [|c p IH]; simpl; [reflexivity|].
  rewrite Ascii.eqb_refl, IH; reflexivity.
Qed.

Lemma slice_from_append (m rest : string) :
  Str.slice_from (String.length m) (m ++ rest) = rest.
Proof. induction m as [|c m IH]; simpl; [reflexivity | exact IH]. Qed.

(** A prefix found in the lower-cased text is the lower case of the
    characters that stand there. *)
Lemma startswith_lower_split (p s : string) :
  Str.startswith (Str.lower s) p = true ->
  exists m rest, s = m ++ rest /\ Str.lower m = p.
Proof.
  revert s; induction p as [|a p IH]; intros s H.
  - exists EmptyString, s; split; reflexivity.
  - destruct s as [|c s]; simpl in H; [discriminate H|].
    apply andb_true_iff in H; destruct H as [Hc Hs].
    apply Ascii.eqb_eq in Hc.
    destruct (IH s Hs) as (m & rest & -> & Hm).
    exists (String c m), rest; split; [reflexivity|].
    simpl; rewrite Hm, Hc; reflexivity.
Qed.

Lemma is_title_line_marked (line : string) :
  is_title_line line = true <-> Spec.marked line.
Proof.
  unfold is_title_line, Spec.marked; split.
  - intros H; apply startswith_lower_split in H.
    destruct H as (m & rest & Hs & Hm); exists m, rest; split; assumption.
  - intros (m & rest & Hs & Hm).
    rewrite Hs, lower_append, Hm.
    apply (startswith_append "title:").
Qed.

Lemma not_title_line (line : string) :
  ~ Spec.marked line -> is_title_line line = false.
Proof.
  intros H; destruct (is_title_line line) eqn:E; [|reflexivity].
  apply is_title_line_marked in E; contradiction.
Qed.

(** What follows the marker is the trimmed line from its seventh
    character on. *)
Lemma remainder_after_marker (s marker rest : string) :
  s = marker ++ rest -> Str.lower marker = "title:" ->
  Str.slice_from 6 s = rest.
Proof.
  intros -> Hm.
  assert (H6 : String.length marker = 6%nat).
  { rewrite <- lower_length, Hm; reflexivity. }
  rewrite <- H6; apply slice_from_append.
Qed.

Lemma loop_skips_unmarked (pre lines : list string) :
  (forall l, In l pre -> ~ Spec.marked l) ->
  extract_title_loop (pre ++ lines)%list = extract_title_loop lines.
Proof.
  induction pre as [|l pre IH]; intros H; simpl; [reflexivity|].
  rewrite not_title_line by (apply H; left; reflexivity).
  apply IH; intros l' Hl'; apply H; right; exact Hl'.
Qed.

(** The lines of a text, joined by line feeds, are the text. *)
Lemma split_concat (s : string) :
  String.concat nl (Str.split newline s) = s.
Proof.
  induction s as [|c s IH]; simpl; [reflexivity|].
  destruct (Ascii.eqb c newline) eqn:E.
  - apply Ascii.eqb_eq in E; subst c.
    destruct (Str.split newline s) as [|h t] eqn:Hs.
    + destruct s; simpl in Hs; [discriminate Hs|].
      destruct (Ascii.eqb a newline); [discriminate Hs|].
      destruct (Str.split newline s); discriminate Hs.
    + change (String.concat nl (EmptyString :: h :: t))
        with (String newline (String.concat nl (h :: t))).
      rewrite IH; reflexivity.
  - destruct (Str.split newline s) as [|h t] eqn:Hs.
    + simpl in IH; subst s; discriminate Hs.
    + destruct t as [|h' t]; simpl in *; rewrite IH; reflexivity.
Qed.

End Title.

(** C4, as amended: [extract_title] returns the trimmed remainder of the
    first line that carries the marker [title:] once trimmed (the line
    without the white space around it starts with the marker in any
    case), and ["Unknown Title"] when no line carries it;
    [extract_title "Title: Moby Dick\nChapter 1" = "Moby Dick"] and
    [extract_title "no marker here" = "Unknown Title"]. *)
Theorem extract_title_first_marked_line (book_text : string) :
  (forall pre line post marker rest,
      Str.split newline book_text = (pre ++ line :: post)%list ->
      (forall l, In l pre -> ~ Spec.marked l) ->
      Str.strip line = marker ++ rest ->
      Str.lower marker = "title:" ->
      extract_title book_text = Str.strip rest)
  /\ ((forall l, In l (Str.split newline book_text) -> ~ Spec.marked l) ->
      extract_title book_text = "Unknown Title")
  /\ extract_title ("Title: Moby Dick" ++ nl ++ "Chapter 1") = "Moby Dick"
  /\ extract_title "no marker here" = "Unknown Title".
Proof.
  split; [|split; [|split]].
  - intros pre line post marker rest Hsplit Hpre Hline Hmarker.
    assert (Hm : is_title_line line = true).
    { apply is_title_line_marked; exists marker, rest; split; assumption. }
    unfold extract_title; rewrite Hsplit, loop_skips_unmarked by exact Hpre.
    cbn [extract_title_loop].
    rewrite Hm, (remainder_after_marker _ _ _ Hline Hmarker); reflexivity.
  - intros Hnone; unfold extract_title.
    rewrite <- (app_nil_r (Str.split newline book_text)).
    rewrite loop_skips_unmarked by exact Hnone; reflexivity.
  - reflexivity.
  - reflexivity.
Qed.

Lemma extract_title_first_marked_line_witness :
  Str.split newline
    ("Project Gutenberg" ++ nl ++ "  TITLE:  Emma " ++ nl ++ "Title: Other")
  = ["Project Gutenberg"; "  TITLE:  Emma "; "Title: Other"]
  /\ Str.strip "  TITLE:  Emma " = "TITLE:" ++ "  Emma"
  /\ Str.lower "TITLE:" = "title:"
  /\ extract_title
       ("Project Gutenberg" ++ nl ++ "  TITLE:  Emma " ++ nl ++ "Title: Other")
     = "Emma".
Proof.
  split; [reflexivity | split; [reflexivity | split; [reflexivity|]]].
  apply (proj1 (extract_title_first_marked_line
                  ("Project Gutenberg" ++ nl ++ "  TITLE:  Emma " ++ nl ++ "Title: Other"))
           ["Project Gutenberg"] "  TITLE:  Emma " ["Title: Other"] "TITLE:" "  Emma").
  - reflexivity.
  - intros l [<- | []] Hm.
    apply is_title_line_marked in Hm; discriminate Hm.
  - reflexivity.
  - reflexivity.
Defined.

(** C4, as stated, fails: the marker is looked for in the trimmed line.
    In a text whose first line is the marker after two spaces, the first
    line whose own prefix is the marker is the second one, and its
    remainder is [B]; [extract_title] returns [A]. *)
Lemma indented_marker_is_found :
  Str.split newline indented_title = ["  Title: A"; "Title: B"]
  /\ map Spec.has_prefix (Str.split newline indented_title) = [false; true]
  /\ map is_title_line (Str.split newline indented_title) = [true; true]
  /\ Spec.title_by_prefix indented_title = "B"
  /\ extract_title indented_title = "A".
Proof. repeat split. Qed.

(** ** The table under [INSERT OR REPLACE] *)

Section Table.

Lemma has_key_iff (t w : string) (r : row) :
  has_key t w r = true <-> key r = (t, w).
Proof.
  unfold has_key, key; rewrite andb_true_iff, !String.eqb_eq.
  split; [intros [-> ->]; reflexivity | intros H; injection H; auto].
Qed.

Lemma written_cons (t : string) (p : string * Z) (wf : list (string * Z)) (r : row) :
  written t (p :: wf) r = has_key t (fst p) r || written t wf r.
Proof.
  unfold written, has_key; simpl.
  destruct (String.eqb (title r) t); reflexivity.
Qed.

Lemma written_false_iff (t : string) (wf : list (string * Z)) (r : row) :
  written t wf r = false <-> title r <> t \/ ~ In (word r) (map fst wf).
Proof.
  unfold written; rewrite andb_false_iff, String.eqb_neq.
  split; intros [H | H]; auto; right.
  - intros Hin.
    assert (E : existsb (String.eqb (word r)) (map fst wf) = true).
    { apply existsb_exists; exists (word r); split; [exact Hin | apply String.eqb_refl]. }
    rewrite E in H; discriminate H.
  - destruct (existsb (String.eqb (word r)) (map fst wf)) eqn:E; [|reflexivity].
    apply existsb_exists in E; destruct E as (x & Hx & Hxw).
    apply String.eqb_eq in Hxw; subst x; contradiction.
Qed.

Lemma filter_twice {A : Type} (f g : A -> bool) (l : list A) :
  filter f (filter g l) = filter (fun x => g x && f x) l.
Proof.
  induction l as [|x l IH]; simpl; [reflexivity|].
  destruct (g x); simpl; [destruct (f x)|]; rewrite IH; reflexivity.
Qed.

Lemma filter_all {A : Type} (f : A -> bool) (l : list A) :
  (forall x, In x l -> f x = true) -> filter f l = l.
Proof.
  induction l as [|x l IH]; intros H; simpl; [reflexivity|].
  rewrite (H x (or_introl eq_refl)), IH; [reflexivity|].
  intros y Hy; apply H; right; exact Hy.
Qed.

Lemma untouched_cons_outer (t : string) (p : string * Z) (wf : list (string * Z)) (l : table) :
  filter (untouched t (p :: wf)) l
  = filter (fun r => negb (has_key t (fst p) r)) (filter (untouched t wf) l).
Proof.
  rewrite filter_twice; apply filter_ext; intros r.
  unfold untouched; rewrite written_cons.
  destruct (has_key t (fst p) r), (written t wf r); reflexivity.
Qed.

Lemma untouched_cons_inner (t : string) (p : string * Z) (wf : list (string * Z)) (l : table) :
  filter (untouched t (p :: wf)) l
  = filter (untouched t wf) (filter (fun r => negb (has_key t (fst p) r)) l).
Proof.
  rewrite filter_twice; apply filter_ext; intros r.
  unfold untouched; rewrite written_cons.
  destruct (has_key t (fst p) r), (written t wf r); reflexivity.
Qed.

Lemma untouched_new_row (t : string) (p : string * Z) (wf : list (string * Z)) :
  filter (untouched t (p :: wf)) [Row t (fst p) (snd p)] = [].
Proof.
  simpl; unfold untouched; rewrite written_cons.
  assert (E : has_key t (fst p) (Row t (fst p) (snd p)) = true)
    by (apply has_key_iff; reflexivity).
  rewrite E; reflexivity.
Qed.

Lemma execute_inserts_cons (t : string) (p : string * Z) (wf : list (string * Z)) (tb : table) :
  execute_inserts t (p :: wf) tb
  = execute_inserts t wf (insert_or_replace t (fst p) (snd p) tb).
Proof. reflexivity. Qed.

(** The rows that a save does not write stay as they are, in their
    order. *)
Lemma execute_inserts_frame (t : string) (wf : list (string * Z)) (tb : table) :
  filter (untouched t wf) (execute_inserts t wf tb) = filter (untouched t wf) tb.
Proof.
  revert tb; induction wf as [|p wf IH]; intros tb; [reflexivity|].
  rewrite execute_inserts_cons, untouched_cons_outer, IH, <- untouched_cons_outer.
  unfold insert_or_replace.
  rewrite filter_app, untouched_new_row, app_nil_r, filter_twice.
  apply filter_ext; intros r.
  unfold untouched; rewrite written_cons.
  destruct (has_key t (fst p) r); reflexivity.
Qed.

(** After a save the table is the rows left alone, followed by rows
    that depend on the saved list only. *)
Lemma execute_inserts_shape (t : string) (wf : list (string * Z)) (tb : table) :
  execute_inserts t wf tb
  = (filter (untouched t wf) tb ++ execute_inserts t wf [])%list.
Proof.
  revert tb; induction wf as [|p wf IH]; intros tb.
  - simpl; rewrite app_nil_r; symmetry.
    apply filter_all; intros r _.
    unfold untouched, written; simpl; rewrite andb_false_r; reflexivity.
  - rewrite !execute_inserts_cons, IH.
    rewrite (IH (insert_or_replace t (fst p) (snd p) [])).
    unfold insert_or_replace; simpl.
    rewrite filter_app, untouched_cons_inner, app_assoc; reflexivity.
Qed.

Lemma execute_inserts_idempotent (t : string) (wf : list (string * Z)) (tb : table) :
  execute_inserts t wf (execute_inserts t wf tb) = execute_inserts t wf tb.
Proof.
  rewrite (execute_inserts_shape t wf (execute_inserts t wf tb)).
  rewrite execute_inserts_frame, <- execute_inserts_shape; reflexivity.
Qed.

Lemma nodup_map_filter {A B : Type} (g : A -> B) (f : A -> bool) (l : list A) :
  NoDup (map g l) -> NoDup (map g (filter f l)).
Proof.
  induction l as [|x l IH]; simpl; intros H; [constructor|].
  inversion H as [|? ? Hx Hl]; subst.
  destruct (f x); simpl; [constructor|]; auto.
  intros Hin; apply Hx.
  apply in_map_iff in Hin; destruct Hin as (y & Hy & Hyl).
  apply in_map_iff; exists y; split; [exact Hy|].
  apply filter_In in Hyl; apply Hyl.
Qed.

Lemma insert_or_replace_nodup (t w : string) (f : Z) (tb : table) :
  NoDup (map key tb) -> NoDup (map key (insert_or_replace t w f tb)).
Proof.
  intros H; unfold insert_or_replace; rewrite map_app.
  apply NoDup_app.
  - apply nodup_map_filter, H.
  - constructor; [intros [] | constructor].
  - intros k Hk [<- | []].
    apply in_map_iff in Hk; destruct Hk as (r & Hr & Hin).
    apply filter_In in Hin; destruct Hin as [_ Hneg].
    change (key r = (t, w)) in Hr.
    apply has_key_iff in Hr; rewrite Hr in Hneg; discriminate Hneg.
Qed.

Lemma execute_inserts_nodup (t : string) (wf : list (string * Z)) (tb : table) :
  NoDup (map key tb) -> NoDup (map key (execute_inserts t wf tb)).
Proof.
  revert tb; induction wf as [|p wf IH]; intros tb H; [exact H|].
  rewrite execute_inserts_cons; apply IH, insert_or_replace_nodup, H.
Qed.

(** The store after a save. *)
Lemma db_save_to_database (d : disk) (t : string) (wf : list (string * Z)) (w : world) :
  db (save_to_database d t wf w)
  = match d, db w with
    | Works, Some tb => Some (execute_inserts t wf tb)
    | _, store => store
    end.
Proof.
  unfold save_to_database.
  destruct d; [|reflexivity].
  destruct (db w) as [tb|] eqn:E; simpl; [reflexivity|].
  destruct wf; simpl; exact E.
Qed.

Lemma rows_save_to_database (d : disk) (t : string) (wf : list (string * Z)) (w : world) :
  rows (save_to_database d t wf w)
  = match d, db w with
    | Works, Some tb => execute_inserts t wf tb
    | _, _ => rows w
    end.
Proof.
  unfold rows; rewrite db_save_to_database.
  destruct d, (db w); reflexivity.
Qed.

Lemma save_to_database_nodup (d : disk) (t : string) (wf : list (string * Z)) (w : world) :
  NoDup (map key (rows w)) -> NoDup (map key (rows (save_to_database d t wf w))).
Proof.
  rewrite rows_save_to_database; unfold rows.
  destruct d, (db w); auto using execute_inserts_nodup.
Qed.

Lemma save_to_database_keeps_table (d : disk) (t : string) (wf : list (string * Z)) (w : world) :
  db w <> None -> db (save_to_database d t wf w) <> None.
Proof.
  rewrite db_save_to_database.
  destruct d, (db w); auto; discriminate.
Qed.

(** What holds of the fresh table and is kept by every save holds
    after every history of saves. *)
Lemma run_saves_invariant (P : world -> Prop) (calls : list save_call) (w : world) :
  (forall c w', In c calls -> P w' ->
     P (save_to_database (call_disk c) (call_title c) (call_pairs c) w')) ->
  P w -> P (run_saves calls w).
Proof.
  revert w; induction calls as [|c calls IH]; intros w Hstep Hw; simpl; [exact Hw|].
  apply IH.
  - intros c' w' Hc'; apply Hstep; right; exact Hc'.
  - apply Hstep; [left; reflexivity | exact Hw].
Qed.

Lemma run_saves_nodup (calls : list save_call) :
  NoDup (map key (rows (run_saves calls fresh))).
Proof.
  apply run_saves_invariant.
  - intros c w' _; apply save_to_database_nodup.
  - constructor.
Qed.

Lemma run_saves_table (calls : list save_call) :
  exists tb, db (run_saves calls fresh) = Some tb.
Proof.
  assert (H : db (run_saves calls fresh) <> None).
  { apply run_saves_invariant.
    - intros c w' _; apply save_to_database_keeps_table.
    - discriminate. }
  destruct (db (run_saves calls fresh)) as [tb|]; [exists tb; reflexivity | contradiction].
Qed.

Lemma other_rows_have_other_keys (before after : table) (x : row) :
  NoDup (map key (before ++ x :: after)) ->
  forall r, In r (before ++ after) -> key r <> key x.
Proof.
  rewrite map_app; simpl; intros H r Hr E.
  apply NoDup_remove_2 in H; apply H.
  rewrite <- map_app, <- E; apply in_map, Hr.
Qed.

Lemma select_title_app (t : string) (a b : table) :
  select_title t (a ++ b)%list = (select_title t a ++ select_title t b)%list.
Proof. unfold select_title; rewrite filter_app, map_app; reflexivity. Qed.

Lemma select_title_none (t : string) (tb : table) :
  select_title t tb = [] <-> forall r, In r tb -> title r <> t.
Proof.
  unfold select_title; induction tb as [|x tb IH]; simpl.
  - split; [intros _ r [] | reflexivity].
  - destruct (String.eqb (title x) t) eqn:E; simpl.
    + split; [discriminate|].
      intros H; apply String.eqb_eq in E.
      exfalso; exact (H x (or_introl eq_refl) E).
    + apply String.eqb_neq in E; rewrite IH; split.
      * intros H r [<- | Hr]; [exact E | exact (H r Hr)].
      * intros H r Hr; apply H; right; exact Hr.
Qed.

(** The rows of a title among the rows that a save leaves alone: all
    of them, when the save is of another title or writes nothing. *)
Lemma select_title_untouched (t t' : string) (wf : list (string * Z)) (tb : table) :
  t' <> t \/ wf = [] ->
  select_title t (filter (untouched t' wf) tb) = select_title t tb.
Proof.
  intros Hother; unfold select_title; f_equal.
  rewrite filter_twice; apply filter_ext; intros r.
  destruct (String.eqb (title r) t) eqn:E; [|apply andb_false_r].
  apply String.eqb_eq in E.
  assert (Hu : written t' wf r = false).
  { apply written_false_iff; destruct Hother as [Hne | ->].
    - left; congruence.
    - right; intros []. }
  unfold untouched; rewrite Hu; reflexivity.
Qed.

Lemma select_title_execute_other (t t' : string) (wf : list (string * Z)) (tb : table) :
  t' <> t \/ wf = [] ->
  select_title t (execute_inserts t' wf tb) = select_title t tb.
Proof.
  intros Hother.
  rewrite <- (select_title_untouched t t' wf (execute_inserts t' wf tb)) by exact Hother.
  rewrite execute_inserts_frame.
  apply select_title_untouched, Hother.
Qed.

Lemma select_title_rows_of (t : string) (wf : list (string * Z)) :
  select_title t (map (row_of t) wf) = wf.
Proof.
  unfold select_title; induction wf as [|[w f] wf IH]; simpl; [reflexivity|].
  rewrite String.eqb_refl; simpl; rewrite IH; reflexivity.
Qed.

(** Pairs of distinct words saved under a title that has none of them
    are appended to the table, in their order. *)
Lemma execute_inserts_new_keys (t : string) (wf : list (string * Z)) (tb : table) :
  NoDup (map fst wf) ->
  (forall r, In r tb -> written t wf r = false) ->
  execute_inserts t wf tb = (tb ++ map (row_of t) wf)%list.
Proof.
  revert tb; induction wf as [|p wf IH]; intros tb Hnd Hnew.
  - simpl; rewrite app_nil_r; reflexivity.
  - inversion Hnd as [|? ? Hp Hwf]; subst.
    rewrite execute_inserts_cons.
    assert (E : insert_or_replace t (fst p) (snd p) tb = (tb ++ [row_of t p])%list).
    { unfold insert_or_replace; f_equal.
      apply filter_all; intros r Hr.
      specialize (Hnew r Hr); rewrite written_cons in Hnew.
      apply orb_false_iff in Hnew; destruct Hnew as [-> _]; reflexivity. }
    rewrite E, IH; [rewrite <- app_assoc; reflexivity | exact Hwf |].
    intros r Hr; apply in_app_or in Hr; destruct Hr as [Hr | [<- | []]].
    + specialize (Hnew r Hr); rewrite written_cons in Hnew.
      apply orb_false_iff in Hnew; apply Hnew.
    + apply written_false_iff; right; exact Hp.
Qed.

End Table.

(** C5: after every sequence of saves from the freshly created table, no
    two rows have the same (title, word), so a pair has at most one
    frequency; a save of one pair whose key is absent adds a row, and a
    save of one pair whose key is present puts the new row in the place
    of the old one. *)
Theorem one_frequency_per_title_and_word (calls : list save_call) :
  NoDup (map key (rows (run_saves calls fresh)))
  /\ (forall t w f1 f2,
        In (Row t w f1) (rows (run_saves calls fresh)) ->
        In (Row t w f2) (rows (run_saves calls fresh)) -> f1 = f2)
  /\ (forall t w f,
        (forall r, In r (rows (run_saves calls fresh)) -> key r <> (t, w)) ->
        rows (save_to_database Works t [(w, f)] (run_saves calls fresh))
        = (rows (run_saves calls fresh) ++ [Row t w f])%list)
  /\ (forall t w f f0,
        In (Row t w f0) (rows (run_saves calls fresh)) ->
        exists before after,
          rows (run_saves calls fresh) = (before ++ Row t w f0 :: after)%list
          /\ rows (save_to_database Works t [(w, f)] (run_saves calls fresh))
             = (before ++ after ++ [Row t w f])%list).
Proof.
  pose proof (run_saves_nodup calls) as Hnd.
  destruct (run_saves_table calls) as [tb Htb].
  assert (Hsave : forall t w f,
             rows (save_to_database Works t [(w, f)] (run_saves calls fresh))
             = insert_or_replace t w f tb).
  { intros t w f; rewrite rows_save_to_database, Htb; reflexivity. }
  assert (Hrows : rows (run_saves calls fresh) = tb)
    by (unfold rows; rewrite Htb; reflexivity).
  rewrite Hrows in *.
  assert (Hreplace : forall t w f0, In (Row t w f0) tb ->
             exists before after,
               tb = (before ++ Row t w f0 :: after)%list
               /\ filter (fun r => negb (has_key t w r)) tb = (before ++ after)%list).
  { intros t w f0 Hin.
    destruct (in_split _ _ Hin) as (before & after & E).
    exists before, after; split; [exact E|].
    rewrite E in Hnd |- *.
    pose proof (other_rows_have_other_keys _ _ _ Hnd) as Hother.
    rewrite filter_app; simpl.
    assert (Hk : has_key t w (Row t w f0) = true) by (apply has_key_iff; reflexivity).
    rewrite Hk; simpl.
    rewrite <- filter_app.
    apply filter_all; intros r Hr.
    destruct (has_key t w r) eqn:Hkr; [|reflexivity].
    apply has_key_iff in Hkr.
    exfalso; apply (Hother r Hr); exact Hkr. }
  split; [exact Hnd | split; [|split]].
  - intros t w f1 f2 H1 H2.
    destruct (Hreplace t w f1 H1) as (before & after & E & Hf).
    assert (Hin : In (Row t w f2) (filter (fun r => negb (has_key t w r)) tb)
                  \/ Row t w f2 = Row t w f1).
    { rewrite Hf; rewrite E in H2.
      apply in_app_or in H2; destruct H2 as [H2 | [H2 | H2]].
      - left; apply in_or_app; left; exact H2.
      - right; symmetry; exact H2.
      - left; apply in_or_app; right; exact H2. }
    destruct Hin as [Hin | Heq]; [|injection Heq; auto].
    apply filter_In in Hin; destruct Hin as [_ Hneg].
    assert (Hk : has_key t w (Row t w f2) = true) by (apply has_key_iff; reflexivity).
    rewrite Hk in Hneg; discriminate Hneg.
  - intros t w f Hnew; rewrite Hsave; unfold insert_or_replace.
    f_equal; apply filter_all; intros r Hr.
    destruct (has_key t w r) eqn:Hkr; [|reflexivity].
    apply has_key_iff in Hkr; exfalso; exact (Hnew r Hr Hkr).
  - intros t w f f0 Hin.
    destruct (Hreplace t w f0 Hin) as (before & after & E & Hf).
    exists before, after; split; [exact E|].
    rewrite Hsave; unfold insert_or_replace.
    rewrite Hf, app_assoc; reflexivity.
Qed.

(** C8: a save of a title writes only the rows of that title whose word
    is in the new list; every other row, and so every row of the title
    for a word outside the new list, stays in the table as it was and is
    not removed. *)
Theorem save_leaves_the_other_rows (d : disk) (t : string)
    (word_freqs : list (string * Z)) (w : world) :
  filter (untouched t word_freqs) (rows (save_to_database d t word_freqs w))
  = filter (untouched t word_freqs) (rows w)
  /\ (forall r,
        title r <> t \/ ~ In (word r) (map fst word_freqs) ->
        (In r (rows (save_to_database d t word_freqs w)) <-> In r (rows w))).
Proof.
  assert (Hframe :
    filter (untouched t word_freqs) (rows (save_to_database d t word_freqs w))
    = filter (untouched t word_freqs) (rows w)).
  { rewrite rows_save_to_database; unfold rows.
    destruct d, (db w); try reflexivity.
    apply execute_inserts_frame. }
  split; [exact Hframe|].
  intros r Hr.
  apply written_false_iff in Hr.
  assert (Hu : untouched t word_freqs r = true) by (unfold untouched; rewrite Hr; reflexivity).
  split; intros Hin.
  - assert (H : In r (filter (untouched t word_freqs)
                        (rows (save_to_database d t word_freqs w))))
      by (apply filter_In; split; assumption).
    rewrite Hframe in H; apply filter_In in H; apply H.
  - assert (H : In r (filter (untouched t word_freqs) (rows w)))
      by (apply filter_In; split; assumption).
    rewrite <- Hframe in H; apply filter_In in H; apply H.
Qed.

(** C10: a save done twice in a row leaves the store as the save done
    once leaves it, whether the file works or not; and once a save went
    through, a second one changes nothing whatever happens to it. *)
Theorem save_twice_is_save_once (d d2 : disk) (t : string)
    (word_freqs : list (string * Z)) (w : world) :
  db (save_to_database d t word_freqs (save_to_database d t word_freqs w))
  = db (save_to_database d t word_freqs w)
  /\ db (save_to_database d2 t word_freqs (save_to_database Works t word_freqs w))
     = db (save_to_database Works t word_freqs w).
Proof.
  split.
  - rewrite !db_save_to_database.
    destruct d; [|reflexivity].
    destruct (db w); [|reflexivity].
    rewrite execute_inserts_idempotent; reflexivity.
  - rewrite !db_save_to_database.
    destruct (db w); destruct d2; try reflexivity.
    rewrite execute_inserts_idempotent; reflexivity.
Qed.

(** ** The words of a counter are distinct *)

Section Keys.

Lemma incr_keys_in (w k : string) (c : Counter.t) :
  In k (map fst (Counter.incr w c)) -> k = w \/ In k (map fst c).
Proof.
  induction c as [|[k' v] c IH]; simpl.
  - intros [<- | []]; left; reflexivity.
  - destruct (String.eqb k' w); simpl; [auto|].
    intros [<- | H]; [right; left; reflexivity|].
    destruct (IH H); auto.
Qed.

Lemma incr_nodup (w : string) (c : Counter.t) :
  NoDup (map fst c) -> NoDup (map fst (Counter.incr w c)).
Proof.
  induction c as [|[k v] c IH]; simpl; intros H.
  - constructor; [intros [] | constructor].
  - inversion H as [|? ? Hk Hc]; subst.
    destruct (String.eqb k w) eqn:E; simpl; [constructor; assumption|].
    constructor; [|apply IH, Hc].
    intros Hin; apply incr_keys_in in Hin; destruct Hin as [-> | Hin].
    + rewrite String.eqb_refl in E; discriminate E.
    + contradiction.
Qed.

Lemma of_list_nodup (words : list string) :
  NoDup (map fst (Counter.of_list words)).
Proof.
  unfold Counter.of_list.
  assert (H : forall c, NoDup (map fst c) ->
                NoDup (map fst (fold_left (fun c w => Counter.incr w c) words c))).
  { induction words as [|w words IH]; intros c Hc; simpl; [exact Hc|].
    apply IH, incr_nodup, Hc. }
  apply H; constructor.
Qed.

Lemma firstn_nodup {A : Type} (n : nat) (l : list A) :
  NoDup l -> NoDup (firstn n l).
Proof.
  intros H; rewrite <- (firstn_skipn n l) in H.
  exact (NoDup_app_remove_r _ _ H).
Qed.

Lemma get_top_words_nodup (text : string) (n : Z) :
  NoDup (map fst (get_top_words text n)).
Proof.
  unfold get_top_words, Counter.most_common.
  rewrite <- firstn_map; apply firstn_nodup.
  eapply Permutation_NoDup; [|apply of_list_nodup].
  apply Permutation_map, Permutation_sym, sorted_desc_permutation.
Qed.

Lemma get_top_words_length (text : string) (n : Z) :
  (List.length (get_top_words text n) <= Z.to_nat n)%nat.
Proof. unfold get_top_words; rewrite most_common_length; apply Nat.le_min_l. Qed.

End Keys.

(** ** Lookups *)

Section Lookup.

Context `{SqlEngine}.

Lemma order_by_nil : order_by_frequency_desc [] = [].
Proof. apply Permutation_nil, Permutation_sym, order_by_permutation. Qed.

Lemma search_database_works (t : string) (w : world) (tb : table) :
  db w = Some tb ->
  search_database Works t w
  = (match select_top10 t tb with [] => None | found => Some found end, w).
Proof.
  intros E; unfold search_database; rewrite E.
  destruct (select_top10 t tb); reflexivity.
Qed.

Lemma search_database_no_rows (d : disk) (t : string) (w : world) :
  select_title t (rows w) = [] -> fst (search_database d t w) = None.
Proof.
  intros Hnone; unfold search_database, rows in *.
  destruct d; [|reflexivity].
  destruct (db w) as [tb|]; [|reflexivity].
  unfold select_top10; rewrite Hnone, order_by_nil; reflexivity.
Qed.

Lemma search_database_raises (e t : string) (w : world) :
  search_database (Raises e) t w
  = (None, print ("Error searching database: " ++ e) w).
Proof. reflexivity. Qed.

(** A lookup after a save of at most ten pairs of distinct words under
    a title that had no row. *)
Lemma search_after_save (t : string) (saved : list (string * Z)) (w : world) (tb : table) :
  db w = Some tb -> select_title t tb = [] ->
  NoDup (map fst saved) -> (List.length saved <= 10)%nat ->
  fst (search_database Works t (save_to_database Works t saved w))
  = match order_by_frequency_desc saved with [] => None | found => Some found end.
Proof.
  intros Hdb Hnone Hnd Hlen.
  assert (Hsaved : db (save_to_database Works t saved w)
                   = Some (tb ++ map (row_of t) saved)%list).
  { rewrite db_save_to_database, Hdb, execute_inserts_new_keys; [reflexivity | exact Hnd |].
    intros r Hr; apply written_false_iff; left.
    apply (proj1 (select_title_none t tb) Hnone r Hr). }
  rewrite (search_database_works _ _ _ Hsaved); simpl.
  unfold select_top10.
  rewrite select_title_app, Hnone, select_title_rows_of; simpl app.
  rewrite firstn_all2; [reflexivity|].
  rewrite (Permutation_length (order_by_permutation saved)); exact Hlen.
Qed.

End Lookup.

(** C9: for a title under which no row was ever saved (every save under
    it that went through had an empty list), a lookup returns the
    absence signal; with a working file nothing else happens, no error
    is printed. *)
Theorem lookup_of_title_never_saved `{SqlEngine} (calls : list save_call)
    (t : string) (d : disk) :
  (forall c, In c calls -> call_title c = t -> call_disk c = Works ->
             call_pairs c = []) ->
  fst (search_database d t (run_saves calls fresh)) = None
  /\ search_database Works t (run_saves calls fresh) = (None, run_saves calls fresh).
Proof.
  intros Hnever.
  assert (Hnone : select_title t (rows (run_saves calls fresh)) = []).
  { apply run_saves_invariant; [|reflexivity].
    intros c w' Hc Hw'.
    rewrite rows_save_to_database.
    destruct (call_disk c) eqn:Hd; [|exact Hw'].
    unfold rows in *; destruct (db w') as [tb|]; [|exact Hw'].
    rewrite select_title_execute_other; [exact Hw'|].
    destruct (String.eqb (call_title c) t) eqn:E.
    - right; apply String.eqb_eq in E; apply Hnever; assumption.
    - left; apply String.eqb_neq; exact E. }
  split; [apply search_database_no_rows, Hnone|].
  destruct (run_saves_table calls) as [tb Htb].
  rewrite (search_database_works _ _ _ Htb).
  unfold rows in Hnone; rewrite Htb in Hnone.
  unfold select_top10; rewrite Hnone, order_by_nil; reflexivity.
Qed.

Lemma lookup_of_title_never_saved_witness :
  (forall c, In c [SaveCall Works "Emma" [("the", 3)]; SaveCall Works "Moby Dick" []] ->
             call_title c = "Moby Dick" -> call_disk c = Works -> call_pairs c = [])
  /\ fst (search_database Works "Moby Dick"
            (run_saves [SaveCall Works "Emma" [("the", 3)]; SaveCall Works "Moby Dick" []] fresh))
     = None.
Proof.
  assert (Hnever :
    forall c, In c [SaveCall Works "Emma" [("the", 3)]; SaveCall Works "Moby Dick" []] ->
              call_title c = "Moby Dick" -> call_disk c = Works -> call_pairs c = []).
  { intros c [<- | [<- | []]] Ht _; [discriminate Ht | reflexivity]. }
  split; [exact Hnever|].
  exact (proj1 (lookup_of_title_never_saved
                  [SaveCall Works "Emma" [("the", 3)]; SaveCall Works "Moby Dick" []]
                  "Moby Dick" Works Hnever)).
Defined.

Section RoundTrip.

Context `{SqlEngine}.

(** A save of pairs of distinct words under a title whose rows all have
    one of these words: the rows of the title are replaced by the pairs,
    in their order, after the rows of the other titles. *)
Lemma execute_inserts_replaces_title (t : string) (saved : list (string * Z)) (tb : table) :
  NoDup (map fst saved) ->
  (forall r, In r tb -> title r = t -> In (word r) (map fst saved)) ->
  execute_inserts t saved tb
  = (filter (untouched t saved) tb ++ map (row_of t) saved)%list
  /\ select_title t (execute_inserts t saved tb) = saved.
Proof.
  intros Hnd Hstale.
  assert (Hshape : execute_inserts t saved tb
                   = (filter (untouched t saved) tb ++ map (row_of t) saved)%list).
  { rewrite execute_inserts_shape; f_equal.
    rewrite execute_inserts_new_keys; [reflexivity | exact Hnd | intros r []]. }
  split; [exact Hshape|].
  rewrite Hshape, select_title_app, select_title_rows_of.
  assert (Hnone : select_title t (filter (untouched t saved) tb) = []).
  { apply select_title_none; intros r Hr Ht.
    apply filter_In in Hr; destruct Hr as [Hr Hu].
    unfold untouched in Hu; apply negb_true_iff, written_false_iff in Hu.
    destruct Hu as [Hne | Hword]; [exact (Hne Ht) | exact (Hword (Hstale r Hr Ht))]. }
  rewrite Hnone; reflexivity.
Qed.

Lemma order_by_of_cons (x : string * Z) (l : list (string * Z)) :
  order_by_frequency_desc (x :: l) <> [].
Proof.
  intros E; pose proof (order_by_permutation (x :: l)) as Hperm.
  rewrite E in Hperm; apply Permutation_nil in Hperm; discriminate Hperm.
Qed.

End RoundTrip.

(** C1, as amended: when the file works and every row that the store
    holds under the title has one of the new top words (so no stale word;
    in particular when the title has no row), saving
    [get_top_words text] under the title leaves under it exactly the
    saved pairs, and the lookup of the title then returns all of them and
    no other, in descending order of frequency, pairs of equal frequency
    in the engine's order; when the text has no word nothing is saved and
    the lookup returns the absence signal. *)
Theorem round_trip_without_stale_words `{SqlEngine} (text t : string)
    (w : world) (tb : table) :
  db w = Some tb ->
  (forall r, In r tb -> title r = t ->
             In (word r) (map fst (get_top_words text 10))) ->
  db (save_to_database Works t (get_top_words text 10) w)
  = Some (filter (untouched t (get_top_words text 10)) tb
          ++ map (row_of t) (get_top_words text 10))%list
  /\ select_title t (rows (save_to_database Works t (get_top_words text 10) w))
     = get_top_words text 10
  /\ search_database Works t (save_to_database Works t (get_top_words text 10) w)
     = (match get_top_words text 10 with
        | [] => None
        | _ => Some (order_by_frequency_desc (get_top_words text 10))
        end,
        save_to_database Works t (get_top_words text 10) w)
  /\ Permutation (order_by_frequency_desc (get_top_words text 10))
                 (get_top_words text 10)
  /\ StronglySorted (fun a b => snd b <= snd a)
                    (order_by_frequency_desc (get_top_words text 10))
  /\ (get_top_words text 10 = [] ->
      db (save_to_database Works t (get_top_words text 10) w) = db w).
Proof.
  intros Hdb Hstale.
  destruct (execute_inserts_replaces_title t (get_top_words text 10) tb
              (get_top_words_nodup text 10) Hstale) as [Hshape Hselect].
  assert (Hsaved : db (save_to_database Works t (get_top_words text 10) w)
                   = Some (execute_inserts t (get_top_words text 10) tb))
    by (rewrite db_save_to_database, Hdb; reflexivity).
  split; [rewrite Hsaved, Hshape; reflexivity|].
  split; [unfold rows; rewrite Hsaved; exact Hselect|].
  split; [|split; [apply order_by_permutation | split; [apply order_by_sorted|]]].
  - rewrite (search_database_works _ _ _ Hsaved); f_equal.
    unfold select_top10; rewrite Hselect.
    rewrite firstn_all2.
    + destruct (get_top_words text 10) as [|x top] eqn:E; [rewrite order_by_nil; reflexivity|].
      pose proof (order_by_of_cons x top) as Hne.
      destruct (order_by_frequency_desc (x :: top)); [contradiction | reflexivity].
    + rewrite (Permutation_length (order_by_permutation (get_top_words text 10))).
      apply (get_top_words_length text 10).
  - intros Hempty; rewrite Hsaved, Hdb, Hempty; reflexivity.
Qed.

Lemma round_trip_without_stale_words_witness :
  db (save_to_database Works "Y" [("owl", 4)] earlier_save)
  = Some [Row "X" "zebra" 5; Row "Y" "owl" 4]
  /\ (forall r, In r [Row "X" "zebra" 5; Row "Y" "owl" 4] -> title r = "X" ->
                In (word r) (map fst (get_top_words "a zebra, the zebra" 10)))
  /\ get_top_words "a zebra, the zebra" 10 = [("zebra", 2); ("a", 1); ("the", 1)]
  /\ db (save_to_database Works "X" (get_top_words "a zebra, the zebra" 10)
           (save_to_database Works "Y" [("owl", 4)] earlier_save))
     = Some [Row "Y" "owl" 4; Row "X" "zebra" 2; Row "X" "a" 1; Row "X" "the" 1]
  /\ fst (search_database Works "X"
            (save_to_database Works "X" (get_top_words "a zebra, the zebra" 10)
               (save_to_database Works "Y" [("owl", 4)] earlier_save)))
     = Some [("zebra", 2); ("a", 1); ("the", 1)].
Proof.
  assert (Hstale :
    forall r, In r [Row "X" "zebra" 5; Row "Y" "owl" 4] -> title r = "X" ->
              In (word r) (map fst (get_top_words "a zebra, the zebra" 10))).
  { intros r [<- | [<- | []]] Ht; [left; reflexivity | discriminate Ht]. }
  split; [reflexivity | split; [exact Hstale | split; [reflexivity|]]].
  pose proof (round_trip_without_stale_words "a zebra, the zebra" "X"
                (save_to_database Works "Y" [("owl", 4)] earlier_save)
                [Row "X" "zebra" 5; Row "Y" "owl" 4] eq_refl Hstale)
    as (Hstore & _ & Hlookup & _).
  split; [exact Hstore|].
  rewrite Hlookup; reflexivity.
Defined.

(** C1, as stated, fails: a text without a word saves nothing and the
    lookup returns the absence signal; a row left under the title by an
    earlier save comes back with the new pairs; and SQLite returns pairs
    of equal frequency in the order of their words, not in the order
    they were saved. *)
Lemma round_trip_not_exactly_the_saved_pairs :
  get_top_words "1984" 10 = []
  /\ fst (search_database Works "X"
            (save_to_database Works "X" (get_top_words "1984" 10) fresh)) = None
  /\ get_top_words "cat" 10 = [("cat", 1)]
  /\ fst (search_database Works "X"
            (save_to_database Works "X" (get_top_words "cat" 10) earlier_save))
     = Some [("zebra", 5); ("cat", 1)]
  /\ get_top_words "b a" 10 = [("b", 1); ("a", 1)]
  /\ fst (search_database Works "X"
            (save_to_database Works "X" (get_top_words "b a" 10) fresh))
     = Some [("a", 1); ("b", 1)].
Proof. repeat split; vm_compute; reflexivity. Qed.

(** ** The two actions of the window *)

(** C6: when the fetch of the URL fails, the action writes that the book
    could not be downloaded and the store is the one it found. *)
Theorem failed_fetch_leaves_the_store (net : string -> reply) (d : disk)
    (w : world) (e : string) :
  Str.strip (url_entry w) <> EmptyString ->
  net (Str.strip (url_entry w)) = NetError e ->
  fst (download_book net (Str.strip (url_entry w)) w) = None
  /\ db (on_fetch_from_url net d w) = db w
  /\ output_area (on_fetch_from_url net d w) = "Book could not be downloaded." ++ nl.
Proof.
  intros Hurl Hnet.
  unfold on_fetch_from_url, download_book.
  rewrite Hnet.
  destruct (Str.strip (url_entry w)); [contradiction|].
  repeat split.
Qed.

Lemma failed_fetch_leaves_the_store_witness :
  Str.strip (url_entry (type_url "not a url" earlier_save)) <> EmptyString
  /\ unreachable (Str.strip (url_entry (type_url "not a url" earlier_save)))
     = NetError "unknown url type"
  /\ db (on_fetch_from_url unreachable Works (type_url "not a url" earlier_save))
     = db (type_url "not a url" earlier_save)
  /\ output_area (on_fetch_from_url unreachable Works (type_url "not a url" earlier_save))
     = "Book could not be downloaded." ++ nl.
Proof.
  split; [discriminate | split; [reflexivity|]].
  apply (failed_fetch_leaves_the_store unreachable Works
           (type_url "not a url" earlier_save) "unknown url type");
    [discriminate | reflexivity].
Defined.

(** Without a URL nothing is fetched, and the store stays as it is too. *)
Lemma missing_url_leaves_the_store (net : string -> reply) (d : disk) (w : world) :
  Str.strip (url_entry w) = EmptyString ->
  on_fetch_from_url net d w = showwarning "Missing info" "Please enter both a URL." w.
Proof. intros E; unfold on_fetch_from_url; rewrite E; reflexivity. Qed.

(** C7, as amended: a lookup that the file fails, whatever rows the
    store holds, and a lookup of a title without rows both return the
    absence signal and both are shown as [Book was not found.]; the
    failure is printed on the standard output, and that line alone tells
    the two apart. *)
Theorem lookup_failures_are_both_shown_as_not_found `{SqlEngine}
    (w : world) (e : string) :
  Str.strip (title_entry w) <> EmptyString ->
  (search_database (Raises e) (Str.strip (title_entry w)) w
   = (None, print ("Error searching database: " ++ e) w)
   /\ stdout (on_search_title (Raises e) w)
      = (stdout w ++ [("Error searching database: " ++ e)%string])%list
   /\ output_area (on_search_title (Raises e) w) = "Book was not found." ++ nl)
  /\ (db w = None ->
      search_database Works (Str.strip (title_entry w)) w
      = (None, print ("Error searching database: " ++ no_such_table) w)
      /\ stdout (on_search_title Works w)
         = (stdout w ++ [("Error searching database: " ++ no_such_table)%string])%list
      /\ output_area (on_search_title Works w) = "Book was not found." ++ nl)
  /\ (forall tb,
        db w = Some tb ->
        select_title (Str.strip (title_entry w)) tb = [] ->
        search_database Works (Str.strip (title_entry w)) w = (None, w)
        /\ stdout (on_search_title Works w) = stdout w
        /\ output_area (on_search_title Works w) = "Book was not found." ++ nl).
Proof.
  intros Htitle.
  split; [|split].
  - unfold on_search_title; rewrite search_database_raises.
    destruct (Str.strip (title_entry w)); [contradiction|].
    repeat split.
  - intros Hdb.
    assert (Hworks : search_database Works (Str.strip (title_entry w)) w
                     = (None, print ("Error searching database: " ++ no_such_table) w))
      by (unfold search_database; rewrite Hdb; reflexivity).
    unfold on_search_title; rewrite Hworks.
    destruct (Str.strip (title_entry w)); [contradiction|].
    repeat split.
  - intros tb Hdb Hnone.
    assert (Hworks : search_database Works (Str.strip (title_entry w)) w = (None, w)).
    { rewrite (search_database_works _ _ _ Hdb).
      unfold select_top10; rewrite Hnone, order_by_nil; reflexivity. }
    unfold on_search_title; rewrite Hworks.
    destruct (Str.strip (title_entry w)); [contradiction|].
    repeat split.
Qed.

Lemma lookup_failures_are_both_shown_as_not_found_witness :
  Str.strip (title_entry (type_title "X" earlier_save)) <> EmptyString
  /\ rows (type_title "X" earlier_save) = [Row "X" "zebra" 5]
  /\ fst (search_database Works "X" (type_title "X" earlier_save))
     = Some [("zebra", 5)]
  /\ search_database (Raises "disk I/O error") "X" (type_title "X" earlier_save)
     = (None, print "Error searching database: disk I/O error"
                (type_title "X" earlier_save))
  /\ output_area (on_search_title (Raises "disk I/O error") (type_title "X" earlier_save))
     = "Book was not found." ++ nl
  /\ Str.strip (title_entry (type_title "Emma" earlier_save)) <> EmptyString
  /\ search_database Works "Emma" (type_title "Emma" earlier_save)
     = (None, type_title "Emma" earlier_save)
  /\ output_area (on_search_title Works (type_title "Emma" earlier_save))
     = "Book was not found." ++ nl.
Proof.
  assert (Hx : Str.strip (title_entry (type_title "X" earlier_save)) <> EmptyString)
    by discriminate.
  assert (He : Str.strip (title_entry (type_title "Emma" earlier_save)) <> EmptyString)
    by discriminate.
  pose proof (lookup_failures_are_both_shown_as_not_found
                (type_title "X" earlier_save) "disk I/O error" Hx) as [Hfail _].
  pose proof (lookup_failures_are_both_shown_as_not_found
                (type_title "Emma" earlier_save) "disk I/O error" He) as (_ & _ & Hnone).
  specialize (Hnone [Row "X" "zebra" 5] eq_refl eq_refl).
  split; [exact Hx | split; [reflexivity | split; [reflexivity|]]].
  split; [exact (proj1 Hfail) | split; [exact (proj2 (proj2 Hfail))|]].
  split; [exact He | split; [exact (proj1 Hnone) | exact (proj2 (proj2 Hnone))]].
Defined.

(** C7, as stated, fails: the lookup that the file fails returns what the
    lookup of an unknown title returns, and the window shows the same
    words for both. *)
Lemma store_failure_is_shown_as_not_found :
  fst (search_database (Raises "disk I/O error") "Emma" fresh) = None
  /\ fst (search_database Works "Emma" fresh) = None
  /\ output_area (on_search_title (Raises "disk I/O error") (type_title "Emma" fresh))
     = output_area (on_search_title Works (type_title "Emma" fresh))
  /\ output_area (on_search_title Works (type_title "Emma" fresh))
     = "Book was not found." ++ nl
  /\ warnings (on_search_title (Raises "disk I/O error") (type_title "Emma" fresh)) = [].
Proof. repeat split. Qed.

(** * Further properties of the analyzer *)

Section Analyzer.

Lemma every_snoc (p : ascii -> bool) (s : string) (c : ascii) :
  every p (s ++ String c EmptyString) = every p s && p c.
Proof.
  induction s as [|a s IH]; simpl.
  - apply andb_true_r.
  - rewrite IH, andb_assoc; reflexivity.
Qed.

Lemma close_letters_only (b a : option ascii) (cur : string) :
  every Char.is_az cur = true -> Forall letters_only (Spec.close b cur a).
Proof.
  intros Hcur; destruct cur as [|c cur]; simpl; constructor; [|constructor].
  split; [discriminate | exact Hcur].
Qed.

Lemma runs_from_letters_only (s : string) (b : option ascii) (cur : string) :
  every Char.is_az cur = true -> Forall letters_only (Spec.runs_from b cur s).
Proof.
  revert b cur; induction s as [|c s IH]; intros b cur Hcur; simpl.
  - apply close_letters_only, Hcur.
  - destruct (Char.is_az c) eqn:Hc.
    + apply IH; rewrite every_snoc, Hcur, Hc; reflexivity.
    + apply Forall_app; split; [apply close_letters_only, Hcur | apply IH; reflexivity].
Qed.

Lemma findall_letters_only (s : string) :
  Forall (fun w => w <> EmptyString /\ every Char.is_az w = true) (Re.findall s).
Proof.
  rewrite findall_standalone_runs; unfold Spec.standalone_runs, Spec.kept, Spec.runs.
  apply Forall_forall; intros w Hw.
  apply in_map_iff in Hw; destruct Hw as (r & <- & Hr).
  apply filter_In in Hr; destruct Hr as [Hr _].
  pose proof (runs_from_letters_only s None EmptyString eq_refl) as Hall.
  rewrite Forall_forall in Hall; exact (Hall r Hr).
Qed.

Lemma fold_incr_keys (words : list string) (c : Counter.t) (k : string) :
  In k (map fst (fold_left (fun c w => Counter.incr w c) words c)) ->
  In k words \/ In k (map fst c).
Proof.
  revert c; induction words as [|w words IH]; intros c Hk; simpl in *.
  - right; exact Hk.
  - destruct (IH _ Hk) as [H | H]; [left; right; exact H|].
    apply incr_keys_in in H; destruct H as [-> | H]; [left; left; reflexivity | right; exact H].
Qed.

Lemma most_common_subset (n : Z) (c : Counter.t) (e : string * Z) :
  In e (Counter.most_common n c) -> In e c.
Proof.
  unfold Counter.most_common; intros He.
  apply (Permutation_in _ (sorted_desc_permutation c)).
  rewrite <- (firstn_skipn (Z.to_nat n) (Counter.sorted_desc c)).
  apply in_or_app; left; exact He.
Qed.

Lemma get_top_words_subset (text : string) (n : Z) (e : string * Z) :
  In e (get_top_words text n) ->
  In e (Counter.of_list (Re.findall (Str.lower text))).
Proof. apply most_common_subset. Qed.

Lemma count_of_incr (w k : string) (c : Counter.t) :
  count_of k (Counter.incr w c) = count_of k c + (if String.eqb w k then 1 else 0).
Proof.
  induction c as [|[k' v] c IH]; simpl.
  - reflexivity.
  - destruct (String.eqb k' w) eqn:Ew; simpl.
    + apply String.eqb_eq in Ew; subst k'.
      destruct (String.eqb w k); lia.
    + destruct (String.eqb k' k) eqn:Ek; [|exact IH].
      apply String.eqb_eq in Ek; subst k'.
      rewrite String.eqb_sym, Ew; lia.
Qed.

Lemma occurrences_cons (k w : string) (words : list string) :
  occurrences k (w :: words)
  = (if String.eqb w k then 1 else 0) + occurrences k words.
Proof.
  unfold occurrences; simpl.
  destruct (string_dec w k) as [-> | Hne].
  - rewrite String.eqb_refl; lia.
  - apply String.eqb_neq in Hne; rewrite Hne; lia.
Qed.

Lemma count_of_fold (words : list string) (c : Counter.t) (k : string) :
  count_of k (fold_left (fun c w => Counter.incr w c) words c)
  = count_of k c + occurrences k words.
Proof.
  revert c; induction words as [|w words IH]; intros c; simpl.
  - unfold occurrences; simpl; lia.
  - rewrite IH, count_of_incr, occurrences_cons; lia.
Qed.

Lemma count_of_in (k : string) (v : Z) (c : Counter.t) :
  NoDup (map fst c) -> In (k, v) c -> count_of k c = v.
Proof.
  induction c as [|[k' v'] c IH]; simpl; intros Hnd Hin; [contradiction|].
  destruct Hin as [He | Hin].
  - injection He as -> ->; rewrite String.eqb_refl; reflexivity.
  - inversion Hnd as [|? ? Hk' Hc]; subst.
    destruct (String.eqb k' k) eqn:E; [|apply IH; assumption].
    apply String.eqb_eq in E; subst k'.
    exfalso; apply Hk'; apply in_map_iff; exists (k, v); split; [reflexivity | exact Hin].
Qed.

Lemma strongly_sorted_app {A : Type} (R : A -> A -> Prop) (l1 l2 : list A) :
  StronglySorted R (l1 ++ l2) ->
  forall x y, In x l1 -> In y l2 -> R x y.
Proof.
  induction l1 as [|a l1 IH]; simpl; intros H x y Hx Hy; [contradiction|].
  inversion H as [|? ? Hs Ha]; subst.
  destruct Hx as [<- | Hx]; [|exact (IH Hs x y Hx Hy)].
  rewrite Forall_forall in Ha; apply Ha, in_or_app; right; exact Hy.
Qed.

Lemma char_lower_lower (c : ascii) : Char.lower (Char.lower c) = Char.lower c.
Proof.
  destruct c as [b0 b1 b2 b3 b4 b5 b6 b7].
  destruct b0, b1, b2, b3, b4, b5, b6, b7; vm_compute; reflexivity.
Qed.

Lemma lower_lower (s : string) : Str.lower (Str.lower s) = Str.lower s.
Proof.
  induction s as [|c s IH]; simpl; [reflexivity|].
  rewrite char_lower_lower, IH; reflexivity.
Qed.

Lemma runs_from_no_letter (s : string) (b : option ascii) :
  every (fun c => negb (Char.is_az c)) s = true ->
  Spec.runs_from b EmptyString s = [].
Proof.
  revert b; induction s as [|c s IH]; intros b H; simpl in *; [reflexivity|].
  apply andb_true_iff in H; destruct H as [Hc Hs].
  apply negb_true_iff in Hc; rewrite Hc; simpl.
  apply IH, Hs.
Qed.

End Analyzer.

(** X1: every word that [get_top_words] returns is a non-empty string of
    the letters a to z, and no word is returned twice. *)
Theorem get_top_words_distinct_lowercase_words (text : string) (n : Z) :
  Forall (fun entry => fst entry <> EmptyString
                       /\ every Char.is_az (fst entry) = true)
         (get_top_words text n)
  /\ NoDup (map fst (get_top_words text n)).
Proof.
  split; [|apply get_top_words_nodup].
  apply Forall_forall; intros [w v] He; simpl.
  apply get_top_words_subset in He.
  assert (Hk : In w (map fst (Counter.of_list (Re.findall (Str.lower text)))))
    by (apply in_map_iff; exists (w, v); split; [reflexivity | exact He]).
  apply fold_incr_keys in Hk; destruct Hk as [Hk | []].
  pose proof (findall_letters_only (Str.lower text)) as Hall.
  rewrite Forall_forall in Hall; exact (Hall w Hk).
Qed.

(** X2: the count that [get_top_words] returns with a word is the number
    of times the word is matched in the lower-cased text. *)
Theorem get_top_words_counts_occurrences (text : string) (n : Z) (w : string) (v : Z) :
  In (w, v) (get_top_words text n) ->
  v = Z.of_nat (count_occ string_dec (Re.findall (Str.lower text)) w).
Proof.
  intros He; apply get_top_words_subset in He.
  rewrite <- (count_of_in w v _ (of_list_nodup _) He).
  unfold Counter.of_list; rewrite count_of_fold; reflexivity.
Qed.

Lemma get_top_words_counts_occurrences_witness :
  In ("the", 2) (get_top_words "The cat, the hat: THE9" 1)
  /\ 2 = Z.of_nat (count_occ string_dec
                     (Re.findall (Str.lower "The cat, the hat: THE9")) "the").
Proof.
  assert (He : In ("the", 2) (get_top_words "The cat, the hat: THE9" 1))
    by (left; reflexivity).
  split; [exact He|].
  exact (get_top_words_counts_occurrences "The cat, the hat: THE9" 1 "the" 2 He).
Defined.

(** X3: [get_top_words] returns the [n] most frequent words: as many
    entries as there are distinct words, up to [n], and every counted
    word that is left out has a count no larger than any count
    returned. *)
Theorem get_top_words_most_frequent (text : string) (n : Z) :
  Z.of_nat (List.length (get_top_words text n))
  = Z.min (Z.max 0 n)
          (Z.of_nat (List.length (Counter.of_list (Re.findall (Str.lower text)))))
  /\ Forall (fun counted =>
               In counted (get_top_words text n)
               \/ Forall (fun entry => snd counted <= snd entry) (get_top_words text n))
            (Counter.of_list (Re.findall (Str.lower text))).
Proof.
  unfold get_top_words; split; [rewrite most_common_length; lia|].
  set (c := Counter.of_list (Re.findall (Str.lower text))).
  apply Forall_forall; intros e He.
  apply (Permutation_in _ (Permutation_sym (sorted_desc_permutation c))) in He.
  pose proof (sorted_desc_sorted c) as Hs.
  unfold Counter.most_common.
  rewrite <- (firstn_skipn (Z.to_nat n) (Counter.sorted_desc c)) in He, Hs.
  apply in_app_or in He; destruct He as [He | He]; [left; exact He | right].
  apply Forall_forall; intros e' He'.
  exact (strongly_sorted_app _ _ _ Hs e' e He' He).
Qed.

(** X4: the case of the letters does not count: the text and the text in
    lower case have the same top words. *)
Theorem get_top_words_ignores_case (text : string) (n : Z) :
  get_top_words (Str.lower text) n = get_top_words text n.
Proof. unfold get_top_words; rewrite lower_lower; reflexivity. Qed.

(** X5: a text whose lower-cased form holds no letter of a to z has no
    top word. *)
Theorem get_top_words_without_letters (text : string) (n : Z) :
  every (fun c => negb (Char.is_az c)) (Str.lower text) = true ->
  get_top_words text n = [].
Proof.
  intros Hnone; unfold get_top_words.
  rewrite findall_standalone_runs.
  unfold Spec.standalone_runs, Spec.runs.
  rewrite (runs_from_no_letter _ None Hnone).
  unfold Counter.most_common; simpl; apply firstn_nil.
Qed.

Lemma get_top_words_without_letters_witness :
  every (fun c => negb (Char.is_az c)) (Str.lower "1984, 2001 & 42!") = true
  /\ get_top_words "1984, 2001 & 42!" 10 = [].
Proof.
  split; [reflexivity|].
  apply (get_top_words_without_letters "1984, 2001 & 42!" 10); reflexivity.
Defined.

(** * Further properties of the title *)

Section Trimmed.

Lemma lstrip_starts_clean (s : string) : starts_clean (Str.lstrip s).
Proof.
  induction s as [|c s IH]; simpl; [exact I|].
  destruct (Char.isspace c) eqn:E; [exact IH | exact E].
Qed.

Lemma lstrip_clean (s : string) : starts_clean s -> Str.lstrip s = s.
Proof. destruct s as [|c s]; simpl; [reflexivity | intros ->; reflexivity]. Qed.

Lemma rstrip_starts_clean (s : string) : starts_clean s -> starts_clean (Str.rstrip s).
Proof.
  destruct s as [|c s]; simpl; [intros _; exact I|].
  intros Hc; destruct (Str.rstrip s); [rewrite Hc|]; exact Hc.
Qed.

Lemma rstrip_rstrip (s : string) : Str.rstrip (Str.rstrip s) = Str.rstrip s.
Proof.
  induction s as [|c s IH]; simpl; [reflexivity|].
  destruct (Str.rstrip s) as [|a r] eqn:E.
  - destruct (Char.isspace c) eqn:Hc; simpl; [reflexivity | rewrite Hc; reflexivity].
  - change (Str.rstrip (String c (String a r))) with
      (match Str.rstrip (String a r) with
       | EmptyString => if Char.isspace c then EmptyString else String c EmptyString
       | x => String c x
       end).
    rewrite IH; reflexivity.
Qed.

Lemma strip_strip (s : string) : Str.strip (Str.strip s) = Str.strip s.
Proof.
  unfold Str.strip.
  rewrite (lstrip_clean (Str.rstrip (Str.lstrip s))).
  - apply rstrip_rstrip.
  - apply rstrip_starts_clean, lstrip_starts_clean.
Qed.

Lemma lstrip_all_space (s : string) :
  every Char.isspace s = true -> Str.lstrip s = EmptyString.
Proof.
  induction s as [|c s IH]; simpl; [reflexivity|].
  intros H; apply andb_true_iff in H; destruct H as [-> Hs]; exact (IH Hs).
Qed.

Lemma strip_all_space (s : string) :
  every Char.isspace s = true -> Str.strip s = EmptyString.
Proof. intros H; unfold Str.strip; rewrite lstrip_all_space by exact H; reflexivity. Qed.

Lemma occurs_lstrip (c : ascii) (s : string) :
  occurs c s = false -> occurs c (Str.lstrip s) = false.
Proof.
  induction s as [|a s IH]; simpl; [reflexivity|].
  intros H; apply orb_false_iff in H; destruct H as [Ha Hs].
  destruct (Char.isspace a); [exact (IH Hs) | simpl; rewrite Ha, Hs; reflexivity].
Qed.

Lemma occurs_rstrip (c : ascii) (s : string) :
  occurs c s = false -> occurs c (Str.rstrip s) = false.
Proof.
  induction s as [|a s IH]; simpl; [reflexivity|].
  intros H; apply orb_false_iff in H; destruct H as [Ha Hs].
  specialize (IH Hs).
  destruct (Str.rstrip s) as [|b r].
  - destruct (Char.isspace a); simpl; [reflexivity | rewrite Ha; reflexivity].
  - change (occurs c (String a (String b r)))
      with (Ascii.eqb a c || occurs c (String b r)).
    rewrite Ha, IH; reflexivity.
Qed.

Lemma occurs_slice_from (c : ascii) (n : nat) (s : string) :
  occurs c s = false -> occurs c (Str.slice_from n s) = false.
Proof.
  revert s; induction n as [|n IH]; intros s H; simpl; [exact H|].
  destruct s as [|a s]; [reflexivity|].
  simpl in H; apply orb_false_iff in H; apply IH, H.
Qed.

Lemma occurs_strip (c : ascii) (s : string) :
  occurs c s = false -> occurs c (Str.strip s) = false.
Proof. intros H; apply occurs_rstrip, occurs_lstrip, H. Qed.

(** No line of a text holds a line feed. *)
Lemma split_lines_single (s : string) :
  Forall (fun l => occurs newline l = false) (Str.split newline s).
Proof.
  induction s as [|c s IH]; simpl.
  - constructor; [reflexivity | constructor].
  - destruct (Ascii.eqb c newline) eqn:E.
    + constructor; [reflexivity | exact IH].
    + destruct (Str.split newline s) as [|h t].
      * constructor; [simpl; rewrite E; reflexivity | constructor].
      * inversion IH as [|? ? Hh Ht]; subst.
        constructor; [simpl; rewrite E, Hh; reflexivity | exact Ht].
Qed.

Lemma loop_result (P : string -> Prop) (lines : list string) :
  P "Unknown Title" ->
  (forall l, In l lines -> P (Str.strip (Str.slice_from 6 (Str.strip l)))) ->
  P (extract_title_loop lines).
Proof.
  intros Hdefault; induction lines as [|l lines IH]; intros H; simpl; [exact Hdefault|].
  destruct (is_title_line l).
  - apply H; left; reflexivity.
  - apply IH; intros l' Hl'; apply H; right; exact Hl'.
Qed.

End Trimmed.

(** X6: the title that [extract_title] returns has no white space at
    either end and holds no line feed. *)
Theorem extract_title_trimmed_single_line (book_text : string) :
  Str.strip (extract_title book_text) = extract_title book_text
  /\ occurs newline (extract_title book_text) = false.
Proof.
  unfold extract_title; split.
  - apply (loop_result (fun t => Str.strip t = t)); [reflexivity|].
    intros l _; apply strip_strip.
  - apply (loop_result (fun t => occurs newline t = false)); [reflexivity|].
    intros l Hl.
    pose proof (split_lines_single book_text) as Hlines.
    rewrite Forall_forall in Hlines.
    apply occurs_strip, occurs_slice_from, occurs_strip, Hlines, Hl.
Qed.

(** * Further properties of the two actions *)

Section Window.

Lemma append_assoc (a b c : string) : (a ++ b) ++ c = a ++ (b ++ c).
Proof. induction a as [|x a IH]; simpl; [reflexivity | rewrite IH; reflexivity]. Qed.

Lemma output_pairs_area (pairs : list (string * Z)) (w : world) :
  output_area (output_pairs pairs w) = output_area w ++ pairs_text pairs.
Proof.
  revert w; induction pairs as [|[wd f] pairs IH]; intros w; simpl.
  - symmetry; apply append_empty_r.
  - rewrite IH; simpl; apply append_assoc.
Qed.

Lemma output_pairs_rest (pairs : list (string * Z)) (w : world) :
  db (output_pairs pairs w) = db w
  /\ stdout (output_pairs pairs w) = stdout w
  /\ title_entry (output_pairs pairs w) = title_entry w
  /\ url_entry (output_pairs pairs w) = url_entry w
  /\ warnings (output_pairs pairs w) = warnings w.
Proof.
  revert w; induction pairs as [|[wd f] pairs IH]; intros w; cbn [output_pairs].
  - repeat split.
  - destruct (IH (output_insert (wd ++ ": " ++ Str.of_Z f ++ nl) w))
      as (H1 & H2 & H3 & H4 & H5).
    rewrite H1, H2, H3, H4, H5; repeat split.
Qed.

Context `{SqlEngine}.

Lemma search_database_world (d : disk) (t : string) (w : world) :
  snd (search_database d t w) = w
  \/ exists e, snd (search_database d t w) = print ("Error searching database: " ++ e) w.
Proof.
  unfold search_database; destruct d as [|e].
  - destruct (db w) as [tb|]; [|right; exists no_such_table; reflexivity].
    left; destruct (select_top10 t tb); reflexivity.
  - right; exists e; reflexivity.
Qed.

Lemma search_database_never_empty (d : disk) (t : string) (w : world) :
  fst (search_database d t w) <> Some [].
Proof.
  unfold search_database; destruct d; [|discriminate].
  destruct (db w) as [tb|]; [|discriminate].
  destruct (select_top10 t tb); discriminate.
Qed.

Lemma on_search_title_title (d : disk) (w : world) (a : ascii) (t : string) :
  Str.strip (title_entry w) = String a t ->
  on_search_title d w
  = match fst (search_database d (String a t) w) with
    | Some found =>
        output_pairs found
          (output_insert ("Top words for '" ++ String a t ++ "':" ++ nl)
             (output_clear (snd (search_database d (String a t) w))))
    | None =>
        output_insert ("Book was not found." ++ nl)
          (output_clear (snd (search_database d (String a t) w)))
    end.
Proof.
  intros E; unfold on_search_title; rewrite E.
  pose proof (search_database_never_empty d (String a t) w) as Hne.
  destruct (search_database d (String a t) w) as [[[|x found]|] w'];
    [contradiction Hne; reflexivity | reflexivity | reflexivity].
Qed.

End Window.

Section Handlers.

Context `{SqlEngine}.

Lemma on_search_title_area (d : disk) (w : world) :
  Str.strip (title_entry w) <> EmptyString ->
  output_area (on_search_title d w)
  = match fst (search_database d (Str.strip (title_entry w)) w) with
    | Some found =>
        ("Top words for '" ++ Str.strip (title_entry w) ++ "':" ++ nl)
        ++ pairs_text found
    | None => "Book was not found." ++ nl
    end.
Proof.
  intros Ht.
  destruct (Str.strip (title_entry w)) as [|a t] eqn:E; [contradiction|].
  rewrite (on_search_title_title d w a t E).
  destruct (fst (search_database d (String a t) w)); [|reflexivity].
  rewrite output_pairs_area; reflexivity.
Qed.

Lemma search_database_db (d : disk) (t : string) (w1 w2 : world) :
  db w1 = db w2 ->
  fst (search_database d t w1) = fst (search_database d t w2).
Proof.
  intros E; unfold search_database; destruct d; [|reflexivity].
  rewrite E; destruct (db w2) as [tb|]; [|reflexivity].
  destruct (select_top10 t tb); reflexivity.
Qed.

Lemma search_database_fst (t : string) (w : world) :
  fst (search_database Works t w)
  = match db w with
    | Some tb => match select_top10 t tb with [] => None | found => Some found end
    | None => None
    end.
Proof.
  unfold search_database; destruct (db w) as [tb|]; [|reflexivity].
  destruct (select_top10 t tb); reflexivity.
Qed.

Lemma search_database_keeps_db (d : disk) (t : string) (w : world) :
  db (snd (search_database d t w)) = db w.
Proof.
  destruct (search_database_world d t w) as [-> | [e ->]]; reflexivity.
Qed.

Lemma on_search_title_keeps_db (d : disk) (w : world) :
  db (on_search_title d w) = db w.
Proof.
  destruct (Str.strip (title_entry w)) as [|a t] eqn:E.
  - unfold on_search_title; rewrite E; reflexivity.
  - rewrite (on_search_title_title d w a t E).
    destruct (fst (search_database d (String a t) w)).
    + rewrite (proj1 (output_pairs_rest _ _)); simpl.
      apply search_database_keeps_db.
    + simpl; apply search_database_keeps_db.
Qed.

Lemma on_fetch_from_url_body (net : string -> reply) (d : disk) (w : world)
    (text : string) :
  Str.strip (url_entry w) <> EmptyString ->
  net (Str.strip (url_entry w)) = Body text ->
  text <> EmptyString ->
  on_fetch_from_url net d w
  = output_pairs (get_top_words text 10)
      (output_insert
         ("Saved '" ++ extract_title text ++ "' to database with top words:" ++ nl)
         (output_clear
            (save_to_database d (extract_title text) (get_top_words text 10) w))).
Proof.
  intros Hurl Hnet Htext.
  unfold on_fetch_from_url, download_book.
  rewrite Hnet.
  destruct (Str.strip (url_entry w)); [contradiction|].
  destruct text; [contradiction | reflexivity].
Qed.

Lemma extract_title_stripped (text : string) :
  Str.strip (extract_title text) = extract_title text.
Proof.
  unfold extract_title.
  apply (loop_result (fun t => Str.strip t = t)); [reflexivity|].
  intros l _; apply strip_strip.
Qed.

End Handlers.

(** X7: when the book is fetched, the window says that it was saved under
    its title and lists the top words, whether the save went through or
    not; when the file fails, the store is left as it was and the error
    is only printed. *)
Theorem fetched_book_is_reported_saved (net : string -> reply) (d : disk)
    (w : world) (text : string) :
  Str.strip (url_entry w) <> EmptyString ->
  net (Str.strip (url_entry w)) = Body text ->
  text <> EmptyString ->
  output_area (on_fetch_from_url net d w)
  = ("Saved '" ++ extract_title text ++ "' to database with top words:" ++ nl)
    ++ pairs_text (get_top_words text 10)
  /\ db (on_fetch_from_url net d w)
     = db (save_to_database d (extract_title text) (get_top_words text 10) w)
  /\ (forall e, d = Raises e ->
        db (on_fetch_from_url net d w) = db w
        /\ stdout (on_fetch_from_url net d w)
           = (stdout w ++ [("Error saving to database: " ++ e)%string])%list).
Proof.
  intros Hurl Hnet Htext.
  rewrite (on_fetch_from_url_body net d w text Hurl Hnet Htext).
  destruct (output_pairs_rest (get_top_words text 10)
              (output_insert
                 ("Saved '" ++ extract_title text ++ "' to database with top words:" ++ nl)
                 (output_clear
                    (save_to_database d (extract_title text) (get_top_words text 10) w))))
    as (Hdb & Hout & _).
  rewrite output_pairs_area, Hdb, Hout.
  split; [reflexivity | split; [reflexivity|]].
  intros e ->; split; reflexivity.
Qed.

Lemma fetched_book_is_reported_saved_witness :
  Str.strip (url_entry (type_url " http://books/1 " fresh)) <> EmptyString
  /\ one_book (Str.strip (url_entry (type_url " http://books/1 " fresh)))
     = Body ("Title: Emma" ++ nl ++ "the cat, the hat")
  /\ output_area (on_fetch_from_url one_book (Raises "disk full")
                    (type_url " http://books/1 " fresh))
     = ("Saved '" ++ extract_title ("Title: Emma" ++ nl ++ "the cat, the hat")
        ++ "' to database with top words:" ++ nl)
       ++ pairs_text (get_top_words ("Title: Emma" ++ nl ++ "the cat, the hat") 10)
  /\ db (on_fetch_from_url one_book (Raises "disk full")
           (type_url " http://books/1 " fresh))
     = db (type_url " http://books/1 " fresh).
Proof.
  split; [discriminate | split; [reflexivity|]].
  pose proof (fetched_book_is_reported_saved one_book (Raises "disk full")
                (type_url " http://books/1 " fresh)
                ("Title: Emma" ++ nl ++ "the cat, the hat")) as Hfetch.
  destruct Hfetch as (Harea & _ & Hfail);
    [discriminate | reflexivity | discriminate |].
  split; [exact Harea | exact (proj1 (Hfail "disk full" eq_refl))].
Defined.

(** X8: a fetch that succeeds with an empty body is handled as a failed
    download: the window says that the book could not be downloaded,
    nothing is printed and nothing is saved. *)
Theorem empty_body_is_shown_as_failed_download (net : string -> reply) (d : disk)
    (w : world) :
  Str.strip (url_entry w) <> EmptyString ->
  net (Str.strip (url_entry w)) = Body EmptyString ->
  on_fetch_from_url net d w
  = output_insert ("Book could not be downloaded." ++ nl) (output_clear w).
Proof.
  intros Hurl Hnet.
  unfold on_fetch_from_url, download_book.
  rewrite Hnet.
  destruct (Str.strip (url_entry w)); [contradiction | reflexivity].
Qed.

Lemma empty_body_is_shown_as_failed_download_witness :
  Str.strip (url_entry (type_url "http://books/0" earlier_save)) <> EmptyString
  /\ empty_page (Str.strip (url_entry (type_url "http://books/0" earlier_save)))
     = Body EmptyString
  /\ on_fetch_from_url empty_page Works (type_url "http://books/0" earlier_save)
     = output_insert ("Book could not be downloaded." ++ nl)
         (output_clear (type_url "http://books/0" earlier_save)).
Proof.
  split; [discriminate | split; [reflexivity|]].
  apply (empty_body_is_shown_as_failed_download empty_page Works
           (type_url "http://books/0" earlier_save)); [discriminate | reflexivity].
Defined.

(** X9: an entry that holds nothing but white space is a missing entry:
    the action shows its warning and does nothing else, no lookup and no
    fetch, and the output area keeps its text. *)
Theorem blank_entries_only_warn `{SqlEngine} (net : string -> reply) (d : disk)
    (w : world) :
  (every Char.isspace (title_entry w) = true ->
   on_search_title d w = showwarning "Missing Title" "Enter a book title." w)
  /\ (every Char.isspace (url_entry w) = true ->
      on_fetch_from_url net d w
      = showwarning "Missing info" "Please enter both a URL." w).
Proof.
  split; intros Hblank.
  - unfold on_search_title; rewrite (strip_all_space _ Hblank); reflexivity.
  - unfold on_fetch_from_url; rewrite (strip_all_space _ Hblank); reflexivity.
Qed.

(** X10: searching never writes to the store: neither [search_database]
    nor the search action changes the table, whatever the file does. *)
Theorem searching_never_writes `{SqlEngine} (d : disk) (t : string) (w : world) :
  db (snd (search_database d t w)) = db w
  /\ db (on_search_title d w) = db w.
Proof.
  split; [apply search_database_keeps_db | apply on_search_title_keeps_db].
Qed.

(** X11: for a title that is given, the search action shows what the
    lookup returns: the heading and one line per returned pair, in the
    order returned, or the words [Book was not found.] for the absence
    signal. *)
Theorem search_action_shows_the_lookup `{SqlEngine} (d : disk) (w : world) :
  Str.strip (title_entry w) <> EmptyString ->
  output_area (on_search_title d w)
  = match fst (search_database d (Str.strip (title_entry w)) w) with
    | Some found =>
        ("Top words for '" ++ Str.strip (title_entry w) ++ "':" ++ nl)
        ++ pairs_text found
    | None => "Book was not found." ++ nl
    end.
Proof. apply on_search_title_area. Qed.

Lemma search_action_shows_the_lookup_witness :
  Str.strip (title_entry (type_title "  X " earlier_save)) <> EmptyString
  /\ output_area (on_search_title Works (type_title "  X " earlier_save))
     = "Top words for 'X':" ++ nl ++ "zebra: 5" ++ nl.
Proof.
  split; [discriminate|].
  exact (search_action_shows_the_lookup Works (type_title "  X " earlier_save)
           ltac:(discriminate)).
Defined.

(** * Further properties of the store *)

Section Store.

Lemma has_key_new_row (t w : string) (f : Z) : has_key t w (Row t w f) = true.
Proof. apply has_key_iff; reflexivity. Qed.

Lemma insert_or_replace_same_key (t w : string) (f : Z) (tb : table) :
  filter (has_key t w) (insert_or_replace t w f tb) = [Row t w f].
Proof.
  unfold insert_or_replace; rewrite filter_app, filter_twice; simpl.
  rewrite has_key_new_row.
  rewrite (filter_ext _ (fun _ => false)), filter_false; [reflexivity|].
  intros r; destruct (has_key t w r); reflexivity.
Qed.

Lemma insert_or_replace_other_key (t w w' : string) (f' : Z) (tb : table) :
  w' <> w ->
  filter (has_key t w) (insert_or_replace t w' f' tb) = filter (has_key t w) tb.
Proof.
  intros Hne; unfold insert_or_replace; rewrite filter_app, filter_twice; simpl.
  assert (Hnew : has_key t w (Row t w' f') = false).
  { unfold has_key; simpl; apply andb_false_iff; right.
    apply String.eqb_neq; exact Hne. }
  rewrite Hnew, app_nil_r.
  apply filter_ext; intros r.
  destruct (has_key t w r) eqn:Hr; [|apply andb_false_r].
  destruct (has_key t w' r) eqn:Hr'; [|reflexivity].
  apply has_key_iff in Hr; apply has_key_iff in Hr'.
  exfalso; apply Hne; congruence.
Qed.

Lemma execute_inserts_other_keys (t w : string) (post : list (string * Z)) (tb : table) :
  ~ In w (map fst post) ->
  filter (has_key t w) (execute_inserts t post tb) = filter (has_key t w) tb.
Proof.
  revert tb; induction post as [|p post IH]; intros tb Hw; [reflexivity|].
  rewrite execute_inserts_cons, IH.
  - apply insert_or_replace_other_key; intros E; apply Hw; left; exact E.
  - intros Hin; apply Hw; right; exact Hin.
Qed.

Lemma execute_inserts_app (t : string) (a b : list (string * Z)) (tb : table) :
  execute_inserts t (a ++ b) tb = execute_inserts t b (execute_inserts t a tb).
Proof. unfold execute_inserts; apply fold_left_app. Qed.

Lemma execute_inserts_last (t w : string) (f : Z) (pre post : list (string * Z))
    (tb : table) :
  ~ In w (map fst post) ->
  filter (has_key t w) (execute_inserts t (pre ++ (w, f) :: post) tb) = [Row t w f].
Proof.
  intros Hw.
  rewrite execute_inserts_app, execute_inserts_cons, execute_inserts_other_keys by exact Hw.
  apply insert_or_replace_same_key.
Qed.

Lemma last_occurrence (w : string) (wf : list (string * Z)) :
  In w (map fst wf) ->
  exists pre f post, wf = (pre ++ (w, f) :: post)%list /\ ~ In w (map fst post).
Proof.
  induction wf as [|[w' f'] wf IH]; simpl; [intros []|].
  intros Hin.
  destruct (in_dec string_dec w (map fst wf)) as [Hlater | Hlast].
  - destruct (IH Hlater) as (pre & f & post & -> & Hpost).
    exists ((w', f') :: pre), f, post; split; [reflexivity | exact Hpost].
  - destruct Hin as [-> | Hin]; [|contradiction].
    exists [], f', wf; split; [reflexivity | exact Hlast].
Qed.

Lemma save_to_database_keeps_keys (d : disk) (t : string)
    (wf : list (string * Z)) (w : world) (r : row) :
  In r (rows w) ->
  exists f, In (Row (title r) (word r) f) (rows (save_to_database d t wf w)).
Proof.
  intros Hr.
  assert (Hsame : exists f, In (Row (title r) (word r) f) (rows w))
    by (exists (frequency r); destruct r; exact Hr).
  rewrite rows_save_to_database.
  destruct d; [|exact Hsame].
  destruct (db w) as [tb|] eqn:Hdb; [|exact Hsame].
  unfold rows in Hr; rewrite Hdb in Hr.
  destruct (written t wf r) eqn:Hw.
  - unfold written in Hw; apply andb_true_iff in Hw; destruct Hw as [Ht Hword].
    apply String.eqb_eq in Ht.
    apply existsb_exists in Hword; destruct Hword as (x & Hx & Exw).
    apply String.eqb_eq in Exw; subst x.
    destruct (last_occurrence _ _ Hx) as (pre & f & post & -> & Hpost).
    exists f.
    assert (Hin : In (Row t (word r) f)
                    (filter (has_key t (word r))
                       (execute_inserts t (pre ++ (word r, f) :: post) tb))).
    { rewrite (execute_inserts_last t (word r) f pre post tb Hpost); left; reflexivity. }
    apply filter_In in Hin; rewrite Ht; apply Hin.
  - exists (frequency r).
    assert (Hin : In r (filter (untouched t wf) tb)).
    { apply filter_In; split; [exact Hr | unfold untouched; rewrite Hw; reflexivity]. }
    rewrite <- execute_inserts_frame in Hin.
    apply filter_In in Hin; destruct r; apply Hin.
Qed.

Lemma firstn_not_nil {A : Type} (n : nat) (l : list A) :
  firstn (S n) l = [] -> l = [].
Proof. destruct l; [reflexivity | discriminate]. Qed.

End Store.

(** X12: with a working file, what [search_database] returns for a title
    is never empty and has at most ten pairs, in descending order of
    frequency; every pair is a row of the title in the table, and every
    row of the title that is not returned has a frequency no larger than
    any returned; the absence signal means that the table has no row of
    the title. *)
Theorem lookup_returns_top_ten_rows_of_title `{SqlEngine} (t : string) (w : world) :
  match fst (search_database Works t w) with
  | Some found =>
      found <> []
      /\ (List.length found <= 10)%nat
      /\ StronglySorted (fun a b => snd b <= snd a) found
      /\ Forall (fun pair => In (Row t (fst pair) (snd pair)) (rows w)) found
      /\ Forall (fun r => title r = t ->
                   In (word r, frequency r) found
                   \/ Forall (fun pair => frequency r <= snd pair) found)
                (rows w)
  | None => Forall (fun r => title r <> t) (rows w)
  end.
Proof.
  unfold search_database, rows.
  destruct (db w) as [tb|]; [|constructor].
  unfold select_top10.
  pose proof (order_by_permutation (select_title t tb)) as Hperm.
  pose proof (order_by_sorted (select_title t tb)) as Hsorted.
  set (l := order_by_frequency_desc (select_title t tb)) in *.
  assert (Hrow : forall wd f, In (wd, f) (select_title t tb) <-> In (Row t wd f) tb).
  { intros wd f; unfold select_title; rewrite in_map_iff; split.
    - intros ([t' wd' f'] & E & Hin); simpl in E; injection E as -> ->.
      apply filter_In in Hin; destruct Hin as [Hin Ht]; simpl in Ht.
      apply String.eqb_eq in Ht; subst t'; exact Hin.
    - intros Hin; exists (Row t wd f); split; [reflexivity|].
      apply filter_In; split; [exact Hin | simpl; apply String.eqb_refl]. }
  destruct (firstn 10 l) as [|x found] eqn:E; cbv beta iota delta [fst].
  - apply firstn_not_nil in E; rewrite E in Hperm.
    apply Permutation_nil in Hperm.
    apply Forall_forall; intros r Hr.
    exact (proj1 (select_title_none t tb) Hperm r Hr).
  - rewrite <- E; split; [rewrite E; discriminate | split; [apply firstn_le_length|]].
    split; [apply firstn_strongly_sorted; exact Hsorted | split].
    + apply Forall_forall; intros [wd f] Hin; simpl.
      apply Hrow, (Permutation_in _ Hperm).
      rewrite <- (firstn_skipn 10 l); apply in_or_app; left; exact Hin.
    + apply Forall_forall; intros [t' wd f] Hr Ht; simpl in *; subst t'.
      apply Hrow, (Permutation_in _ (Permutation_sym Hperm)) in Hr.
      rewrite <- (firstn_skipn 10 l) in Hr, Hsorted.
      apply in_app_or in Hr; destruct Hr as [Hr | Hr]; [left; exact Hr | right].
      apply Forall_forall; intros e He.
      exact (strongly_sorted_app _ _ _ Hsorted e (wd, f) He Hr).
Qed.

(** X13: when a word stands several times in the saved list, its last
    frequency is the one stored: after a save that went through, the
    table holds for each word of the list exactly one row of the title,
    with the frequency of the word's last pair. *)
Theorem save_stores_last_frequency_of_word (t wd : string) (f : Z)
    (pre post : list (string * Z)) (w : world) :
  db w <> None ->
  ~ In wd (map fst post) ->
  filter (has_key t wd)
         (rows (save_to_database Works t (pre ++ (wd, f) :: post) w))
  = [Row t wd f].
Proof.
  intros Hdb Hlast.
  rewrite rows_save_to_database.
  destruct (db w) as [tb|]; [|contradiction].
  apply execute_inserts_last, Hlast.
Qed.

Lemma save_stores_last_frequency_of_word_witness :
  db earlier_save <> None
  /\ ~ In "zebra" (map fst [("cat", 1)])
  /\ filter (has_key "X" "zebra")
            (rows (save_to_database Works "X"
                     ([("zebra", 7)] ++ ("zebra", 2) :: [("cat", 1)]) earlier_save))
     = [Row "X" "zebra" 2].
Proof.
  assert (Hdb : db earlier_save <> None) by discriminate.
  assert (Hlast : ~ In "zebra" (map fst [("cat", 1)]))
    by (intros [E | []]; discriminate E).
  split; [exact Hdb | split; [exact Hlast|]].
  exact (save_stores_last_frequency_of_word "X" "zebra" 2 [("zebra", 7)] [("cat", 1)]
           earlier_save Hdb Hlast).
Defined.

(** X14: a save under one title does not change what a lookup of
    another title returns. *)
Theorem save_leaves_lookups_of_other_titles `{SqlEngine} (d d' : disk)
    (t t' : string) (word_freqs : list (string * Z)) (w : world) :
  t' <> t ->
  fst (search_database d' t' (save_to_database d t word_freqs w))
  = fst (search_database d' t' w).
Proof.
  intros Hne.
  destruct d'; [|reflexivity].
  rewrite !search_database_fst, db_save_to_database.
  destruct d; [|reflexivity].
  destruct (db w) as [tb|]; [|reflexivity].
  unfold select_top10.
  rewrite select_title_execute_other by (left; congruence).
  reflexivity.
Qed.

Lemma save_leaves_lookups_of_other_titles_witness :
  "X" <> "Emma"
  /\ fst (search_database Works "X"
            (save_to_database Works "Emma" [("zebra", 1); ("emma", 9)] earlier_save))
     = Some [("zebra", 5)].
Proof.
  assert (Hne : "X" <> "Emma") by discriminate.
  split; [exact Hne|].
  exact (save_leaves_lookups_of_other_titles Works Works "Emma" "X"
           [("zebra", 1); ("emma", 9)] earlier_save Hne).
Defined.

(** X15: a row is never deleted: a (title, word) that is in the table is
    still in it, with some frequency, after any sequence of saves. *)
Theorem stored_keys_are_never_removed (calls : list save_call) (w : world) (r : row) :
  In r (rows w) ->
  exists f, In (Row (title r) (word r) f) (rows (run_saves calls w)).
Proof.
  revert w r; induction calls as [|c calls IH]; intros w r Hr; simpl.
  - exists (frequency r); destruct r; exact Hr.
  - destruct (save_to_database_keeps_keys (call_disk c) (call_title c)
                (call_pairs c) w r Hr) as [f Hf].
    exact (IH _ _ Hf).
Qed.

Lemma stored_keys_are_never_removed_witness :
  In (Row "X" "zebra" 5) (rows earlier_save)
  /\ exists f,
       In (Row "X" "zebra" f)
          (rows (run_saves [SaveCall Works "X" [("cat", 1)];
                            SaveCall (Raises "locked") "X" [("zebra", 0)];
                            SaveCall Works "X" [("zebra", 9)]] earlier_save)).
Proof.
  assert (Hr : In (Row "X" "zebra" 5) (rows earlier_save)) by (left; reflexivity).
  split; [exact Hr|].
  exact (stored_keys_are_never_removed
           [SaveCall Works "X" [("cat", 1)];
            SaveCall (Raises "locked") "X" [("zebra", 0)];
            SaveCall Works "X" [("zebra", 9)]] earlier_save (Row "X" "zebra" 5) Hr).
Defined.

(** X17: fetching a book and then searching for its title shows the words
    that were saved: when the book has a title that is not empty and has
    no row yet, the search action lists the top words of the book in
    descending order of frequency, or says that the book was not found
    when the book has no word. *)
Theorem fetch_then_search_shows_top_words `{SqlEngine} (net : string -> reply)
    (w : world) (tb : table) (text : string) :
  Str.strip (url_entry w) <> EmptyString ->
  net (Str.strip (url_entry w)) = Body text ->
  text <> EmptyString ->
  extract_title text <> EmptyString ->
  db w = Some tb ->
  select_title (extract_title text) tb = [] ->
  output_area
    (on_search_title Works
       (type_title (extract_title text) (on_fetch_from_url net Works w)))
  = match get_top_words text 10 with
    | [] => "Book was not found." ++ nl
    | _ =>
        ("Top words for '" ++ extract_title text ++ "':" ++ nl)
        ++ pairs_text (order_by_frequency_desc (get_top_words text 10))
    end.
Proof.
  intros Hurl Hnet Htext Htitle Hdb Hnone.
  set (w1 := on_fetch_from_url net Works w).
  assert (Hentry : Str.strip (title_entry (type_title (extract_title text) w1))
                   = extract_title text) by apply extract_title_stripped.
  rewrite on_search_title_area by (rewrite Hentry; exact Htitle).
  rewrite Hentry.
  assert (Hdb1 : db (type_title (extract_title text) w1)
                 = db (save_to_database Works (extract_title text)
                         (get_top_words text 10) w)).
  { unfold w1; rewrite (on_fetch_from_url_body net Works w text Hurl Hnet Htext).
    simpl; rewrite (proj1 (output_pairs_rest _ _)); reflexivity. }
  rewrite (search_database_db Works (extract_title text) _ _ Hdb1).
  rewrite (search_after_save (extract_title text) _ w tb Hdb Hnone
             (get_top_words_nodup text 10) (get_top_words_length text 10)).
  pose proof (order_by_permutation (get_top_words text 10)) as Hperm.
  destruct (order_by_frequency_desc (get_top_words text 10)) as [|x found] eqn:E.
  - apply Permutation_nil in Hperm; rewrite Hperm; reflexivity.
  - destruct (get_top_words text 10) as [|y top]; [|reflexivity].
    apply Permutation_sym, Permutation_nil in Hperm; discriminate Hperm.
Qed.

Lemma fetch_then_search_shows_top_words_witness :
  Str.strip (url_entry (type_url "http://books/1" fresh)) <> EmptyString
  /\ one_book (Str.strip (url_entry (type_url "http://books/1" fresh)))
     = Body ("Title: Emma" ++ nl ++ "the cat, the hat")
  /\ extract_title ("Title: Emma" ++ nl ++ "the cat, the hat") = "Emma"
  /\ db (type_url "http://books/1" fresh) = Some []
  /\ output_area
       (on_search_title Works
          (type_title "Emma"
             (on_fetch_from_url one_book Works (type_url "http://books/1" fresh))))
     = "Top words for 'Emma':" ++ nl
       ++ "the: 2" ++ nl ++ "cat: 1" ++ nl ++ "emma: 1" ++ nl
       ++ "hat: 1" ++ nl ++ "title: 1" ++ nl.
Proof.
  split; [discriminate | split; [reflexivity | split; [reflexivity | split; [reflexivity|]]]].
  exact (fetch_then_search_shows_top_words one_book (type_url "http://books/1" fresh) []
           ("Title: Emma" ++ nl ++ "the cat, the hat")
           ltac:(discriminate) eq_refl ltac:(discriminate) ltac:(discriminate)
           eq_refl eq_refl).
Defined.
